(** * CollapseTransition.vue: a shallow embedding and its properties

    The component drives a CSS transition of an element's height or width
    between zero and its natural size.  Its script is embedded below:
    strings as [string], the cache [cachedStyles] as an ordered association
    list over the keys of the [CachedStyles] interface, the element's inline
    style declaration as a finite map, and every method of the component as
    a computation in a small state monad over the component instance, the
    element, the notifications emitted and the timers set. *)

From Stdlib Require Import Ascii.
From stdpp Require Import gmap strings list fin_maps pretty.

Local Open Scope Z_scope.

(** ** Strings: [convertToCssProperty] *)

Module Css.

(** The character class [[A-Z]]. *)
Definition is_upper (c : ascii) : bool :=
  let n := nat_of_ascii c in ((65 <=? n) && (n <=? 90))%nat.

(** [String.prototype.toLowerCase] on one character. *)
Definition toLowerCase (c : ascii) : ascii :=
  if is_upper c then ascii_of_nat (nat_of_ascii c + 32) else c.

(** [style.match(/([A-Z])/g)]: every upper-case letter of [style], in
    order of occurrence; the empty list stands for the [null] result. *)
Fixpoint upperChars (style : string) : list ascii :=
  match style with
  | EmptyString => []
  | String a s => if is_upper a then a :: upperChars s else upperChars s
  end.

(** [style.replace(new RegExp(c), rep)] for a one-letter pattern: the first
    occurrence of [c] is replaced, the rest of the string is kept. *)
Fixpoint replace_first (c : ascii) (rep : string) (style : string) : string :=
  match style with
  | EmptyString => EmptyString
  | String a s =>
      if Ascii.eqb a c then rep +:+ s else String a (replace_first c rep s)
  end.

(** ['-' + upperChars[i].toLowerCase()]. *)
Definition hyphen_lower (c : ascii) : string :=
  String "-" (String (toLowerCase c) EmptyString).

(** The [for] loop of [convertToCssProperty]. *)
Definition replace_loop (ups : list ascii) (style : string) : string :=
  fold_left (fun st u => replace_first u (hyphen_lower u) st) ups style.

(** [if (style.slice(0, 1) === '-') style = style.slice(1)]. *)
Definition strip_hyphen (style : string) : string :=
  match style with
  | String "-" s => s
  | _ => style
  end.

Definition convertToCssProperty (style : string) : string :=
  match upperChars style with
  | [] => style
  | ups => strip_hyphen (replace_loop ups style)
  end.

(** The transform as the specification words it: a hyphen is inserted
    before each upper-case letter, which is lower-cased ... *)
Fixpoint hyphenate (s : string) : string :=
  match s with
  | EmptyString => EmptyString
  | String a s' =>
      if is_upper a then String "-" (String (toLowerCase a) (hyphenate s'))
      else String a (hyphenate s')
  end.

(** ... and the hyphen is dropped again when it is the first character of
    the string that produced it. *)
Definition kebab_case (s : string) : string :=
  match s with
  | EmptyString => EmptyString
  | String a s' =>
      if is_upper a then String (toLowerCase a) (hyphenate s')
      else hyphenate s
  end.

Definition starts_with_hyphen (s : string) : bool :=
  match s with
  | String "-" _ => true
  | _ => false
  end.

End Css.

Export Css.

(** ** The element and the component instance *)

(** [keyof CachedStyles]: the six optional fields of the interface. *)
Inductive StyleKey :=
  | height | paddingTop | paddingBottom
  | width | paddingLeft | paddingRight.

#[global] Instance StyleKey_eq_dec : EqDecision StyleKey.
Proof. solve_decision. Defined.

(** The property name behind a key, as [Object.keys] returns it and as it
    indexes [el.style]. *)
Definition key_name (k : StyleKey) : string :=
  match k with
  | height => "height"
  | paddingTop => "paddingTop"
  | paddingBottom => "paddingBottom"
  | width => "width"
  | paddingLeft => "paddingLeft"
  | paddingRight => "paddingRight"
  end.

(** An object of type [CachedStyles]: its own properties in insertion
    order, which is the order [Object.keys] enumerates them in. *)
Abbreviation CachedStyles := (list (StyleKey * string)).

(** [Object.keys(this.cachedStyles)]. *)
Definition keys (c : CachedStyles) : list StyleKey := map fst c.

(** The inline style declaration [el.style], as the store of the values
    assigned to it: a property that is not set reads as the empty string,
    and assigning the empty string to a property unsets it.  How the
    browser serialises a value that is assigned (['0'] reads back as
    ['0px']) and that it drops a value it cannot parse is not part of the
    model: the statements below read a property back only where it was
    emptied, was left alone, or was given back the value read from it, and
    speak of the writes themselves otherwise. *)
Abbreviation Style := (gmap string string).

Definition inline (st : Style) (prop : string) : string :=
  default EmptyString (st !! prop).

Definition assign (prop value : string) (st : Style) : Style :=
  if String.eqb value EmptyString then delete prop st
  else <[prop := value]> st.

(** An [HTMLElement], as far as the component looks at it.  What layout
    computes ([offsetHeight], [offsetWidth], the computed style) depends on
    the inline style at the moment of the read. *)
Record HTMLElement := {
  node : nat;
  style : Style;
  offsetHeight : Style -> Z;
  offsetWidth : Style -> Z;
  computedStyle : Style -> string -> string;
}.

Definition with_style (st : Style) (e : HTMLElement) : HTMLElement :=
  {| node := node e; style := st; offsetHeight := offsetHeight e;
     offsetWidth := offsetWidth e; computedStyle := computedStyle e |}.

(** The completion callback [done] handed over by the transition host; a
    missing argument is [None] ([undefined]). *)
Abbreviation Callback := (option nat).

(** Props and data of one component instance. *)
Record Component := {
  name : string;
  dimension : string;
  duration : Z;
  easing : string;
  cachedStyles : CachedStyles;
}.

Definition with_cachedStyles (c : CachedStyles) (this : Component) : Component :=
  {| name := name this; dimension := dimension this;
     duration := duration this; easing := easing this; cachedStyles := c |}.

Definition with_dimension (d : string) (this : Component) : Component :=
  {| name := name this; dimension := d;
     duration := duration this; easing := easing this;
     cachedStyles := cachedStyles this |}.

(** What a method does that can be seen from outside, in program order. *)
Inductive Event :=
  | StyleRead (prop : string)                (* el.style[prop] *)
  | StyleWrite (prop value : string)         (* el.style[prop] = value *)
  | LayoutRead (prop : string)               (* el.offsetHeight, el.offsetWidth *)
  | ComputedRead (prop : string)             (* getComputedStyle(el) ... *)
  | Emit (event : string) (el : nat) (done : Callback)   (* this.$emit *)
  | SetTimeout (handler : Callback) (delay : Z).

(** A pending timer: the instant it is due at and its handler. *)
Record Timer := { due : Z; handler : Callback }.

(** The state a method runs in: the instance, the element it was called
    with, the events so far, the current time in milliseconds and the
    timers pending. *)
Record World := {
  this : Component;
  el : HTMLElement;
  log : list Event;
  now : Z;
  timers : list Timer;
}.

Definition M (A : Type) : Type := World -> A * World.

Definition ret {A} (a : A) : M A := fun w => (a, w).
Definition bind {A B} (m : M A) (k : A -> M B) : M B :=
  fun w => let (a, w') := m w in k a w'.

#[global] Instance M_ret : MRet M := @ret.
#[global] Instance M_bind : MBind M := fun A B k m => bind m k.

(** The world a computation ends in. *)
Definition exec {A} (m : M A) (w : World) : World := snd (m w).
(** The value it returns. *)
Definition eval {A} (m : M A) (w : World) : A := fst (m w).

Definition record (e : Event) : M unit := fun w =>
  (tt, {| this := this w; el := el w; log := log w ++ [e];
          now := now w; timers := timers w |}).

Definition get_this : M Component := fun w => (this w, w).

Definition put_this (c : Component) : M unit := fun w =>
  (tt, {| this := c; el := el w; log := log w; now := now w;
          timers := timers w |}).

Definition get_el : M HTMLElement := fun w => (el w, w).

Definition put_el (e : HTMLElement) : M unit := fun w =>
  (tt, {| this := this w; el := e; log := log w; now := now w;
          timers := timers w |}).

(** [el.style[prop]]. *)
Definition style_get (prop : string) : M string :=
  record (StyleRead prop) ;;
  e ← get_el;
  mret (inline (style e) prop).

(** [el.style[prop] = value]. *)
Definition style_set (prop value : string) : M unit :=
  record (StyleWrite prop value) ;;
  e ← get_el;
  put_el (with_style (assign prop value (style e)) e).

(** [el.offsetHeight] and [el.offsetWidth]. *)
Definition read_offsetHeight : M Z :=
  record (LayoutRead "offsetHeight") ;;
  e ← get_el;
  mret (offsetHeight e (style e)).

Definition read_offsetWidth : M Z :=
  record (LayoutRead "offsetWidth") ;;
  e ← get_el;
  mret (offsetWidth e (style e)).

(** [getComputedStyle(el)[prop]] and
    [getComputedStyle(el, null).getPropertyValue(prop)]. *)
Definition getComputedStyle (prop : string) : M string :=
  record (ComputedRead prop) ;;
  e ← get_el;
  mret (computedStyle e (style e) prop).

(** [this.$emit(event, el)] and [this.$emit(event, el, done)]. *)
Definition emit (event : string) (done : Callback) : M unit :=
  e ← get_el;
  record (Emit event (node e) done).

(** The delay the host's [setTimeout] waits for: it keeps the argument as
    a signed 32-bit integer, so that a larger number wraps around, and
    takes a negative delay for none. *)
Definition to_int32 (n : Z) : Z := (n + 2 ^ 31) mod 2 ^ 32 - 2 ^ 31.

Definition timer_delay (delay : Z) : Z := Z.max 0 (to_int32 delay).

(** [setTimeout(handler, delay)]: the call returns at once and the host
    keeps a timer, whose handler is due when the delay it waits for has
    passed. *)
Definition add_timer (h : Callback) (delay : Z) : M unit := fun w =>
  (tt, {| this := this w; el := el w; log := log w; now := now w;
          timers := timers w
                    ++ [{| due := now w + timer_delay delay; handler := h |}] |}).

Definition setTimeout (h : Callback) (delay : Z) : M unit :=
  record (SetTimeout h delay) ;;
  add_timer h delay.

(** [list.forEach(f)]. *)
Fixpoint forEach {A} (l : list A) (f : A -> M unit) : M unit :=
  match l with
  | [] => mret tt
  | x :: l' => f x ;; forEach l' f
  end.

(** [a || b] on strings: [b] is evaluated only when [a] is empty. *)
Definition or_else (a : string) (b : M string) : M string :=
  if String.eqb a EmptyString then b else mret a.

(** A number inside a template literal, as in [`${el.offsetHeight}px`] and
    [`${this.duration}ms`]: the sizes and the duration are whole numbers,
    which print in decimal. *)
Definition show (n : Z) : string := pretty n.

(** ** The component's script *)

(** The computed property [transition]. *)
Definition transition_token (this : Component) (key : StyleKey) : string :=
  convertToCssProperty (key_name key) +:+ " " +:+ show (duration this)
    +:+ "ms " +:+ easing this.

Definition transition (this : Component) : string :=
  String.concat ", " (map (transition_token this) (keys (cachedStyles this))).

Definition getCssValue (prop : string) : M string :=
  getComputedStyle prop.

Definition detectRelevantDimensions : M CachedStyles :=
  c ← get_this;
  if String.eqb (dimension c) "height" then
    h ← read_offsetHeight;
    i ← style_get "paddingTop";
    pt ← or_else i (getCssValue "padding-top");
    j ← style_get "paddingBottom";
    pb ← or_else j (getCssValue "padding-bottom");
    mret [(height, show h +:+ "px"); (paddingTop, pt); (paddingBottom, pb)]
  else if String.eqb (dimension c) "width" then
    w ← read_offsetWidth;
    i ← style_get "paddingLeft";
    pl ← or_else i (getCssValue "padding-left");
    j ← style_get "paddingRight";
    pr ← or_else j (getCssValue "padding-right");
    mret [(width, show w +:+ "px"); (paddingLeft, pl); (paddingRight, pr)]
  else mret [].

Definition detectAndCacheDimensions : M unit :=
  c ← get_this;
  if (0 <? length (keys (cachedStyles c)))%nat then mret tt
  else
    visibility ← style_get "visibility";
    display ← style_get "display";
    style_set "visibility" "hidden" ;;
    style_set "display" "" ;;
    measured ← detectRelevantDimensions;
    c ← get_this;
    put_this (with_cachedStyles measured c) ;;
    style_set "visibility" visibility ;;
    style_set "display" display.

Definition clearCachedDimensions : M unit :=
  c ← get_this;
  put_this (with_cachedStyles [] c).

Definition setTransition : M unit :=
  c ← get_this;
  style_set "transition" (transition c).

Definition unsetTransition : M unit := style_set "transition" "".

Definition hideOverflow : M unit := style_set "overflow" "hidden".

Definition unsetOverflow : M unit := style_set "overflow" "".

Definition setClosedDimensions : M unit :=
  c ← get_this;
  forEach (keys (cachedStyles c)) (fun key => style_set (key_name key) "0").

(** [this.cachedStyles[key]]. *)
Fixpoint cached (c : CachedStyles) (key : StyleKey) : string :=
  match c with
  | [] => EmptyString
  | (k, v) :: c' => if decide (k = key) then v else cached c' key
  end.

Definition setOpenedDimensions : M unit :=
  c ← get_this;
  forEach (keys (cachedStyles c))
    (fun key => c ← get_this; style_set (key_name key) (cached (cachedStyles c) key)).

Definition unsetDimensions : M unit :=
  c ← get_this;
  forEach (keys (cachedStyles c)) (fun key => style_set (key_name key) "").

Definition forceRepaint : M unit :=
  c ← get_this;
  _ ← getComputedStyle (dimension c);
  mret tt.

Definition beforeAppear : M unit := emit "before-appear" None.
Definition appear : M unit := emit "appear" None.
Definition afterAppear : M unit := emit "after-appear" None.
Definition appearCancelled : M unit := emit "appear-cancelled" None.
Definition beforeEnter : M unit := emit "before-enter" None.

Definition enter (done : Callback) : M unit :=
  detectAndCacheDimensions ;;
  setClosedDimensions ;;
  hideOverflow ;;
  forceRepaint ;;
  setTransition ;;
  setOpenedDimensions ;;
  emit "enter" done ;;
  c ← get_this;
  setTimeout done (duration c).

Definition afterEnter : M unit :=
  unsetOverflow ;;
  unsetTransition ;;
  unsetDimensions ;;
  clearCachedDimensions ;;
  emit "after-enter" None.

Definition enterCancelled : M unit := emit "enter-cancelled" None.
Definition beforeLeave : M unit := emit "before-leave" None.

Definition leave (done : Callback) : M unit :=
  detectAndCacheDimensions ;;
  setOpenedDimensions ;;
  hideOverflow ;;
  forceRepaint ;;
  setTransition ;;
  setClosedDimensions ;;
  emit "leave" done ;;
  c ← get_this;
  setTimeout done (duration c).

Definition afterLeave : M unit :=
  unsetOverflow ;;
  unsetTransition ;;
  unsetDimensions ;;
  clearCachedDimensions ;;
  emit "after-leave" None.

Definition leaveCancelled : M unit := emit "leave-cancelled" None.

(** ** The template: which method the host's hooks are bound to *)

Inductive Method :=
  | m_beforeAppear | m_appear | m_afterAppear | m_appearCancelled
  | m_beforeEnter | m_enter | m_afterEnter | m_enterCancelled
  | m_beforeLeave | m_leave | m_afterLeave | m_leaveCancelled.

(** The twelve listeners of the [<transition>] element, in template order. *)
Definition listeners : list (string * Method) :=
  [ ("before-appear", m_beforeAppear); ("appear", m_appear);
    ("after-appear", m_afterAppear); ("appear-cancelled", m_appearCancelled);
    ("before-enter", m_beforeEnter); ("enter", m_enter);
    ("after-enter", m_afterEnter); ("enter-cancelled", m_enterCancelled);
    ("before-leave", m_beforeLeave); ("leave", m_leave);
    ("after-leave", m_afterLeave); ("leave-cancelled", m_leaveCancelled) ].

Definition hook_names : list string := map fst listeners.

Fixpoint listener (l : list (string * Method)) (event : string) : option Method :=
  match l with
  | [] => None
  | (n, m) :: l' => if String.eqb n event then Some m else listener l' event
  end.

(** Calling a method with the arguments [(el, done)]: a method declared
    with the single parameter [el] does not look at the second one. *)
Definition call (m : Method) (done : Callback) : M unit :=
  match m with
  | m_beforeAppear => beforeAppear
  | m_appear => appear
  | m_afterAppear => afterAppear
  | m_appearCancelled => appearCancelled
  | m_beforeEnter => beforeEnter
  | m_enter => enter done
  | m_afterEnter => afterEnter
  | m_enterCancelled => enterCancelled
  | m_beforeLeave => beforeLeave
  | m_leave => leave done
  | m_afterLeave => afterLeave
  | m_leaveCancelled => leaveCancelled
  end.

(** The host raises the hook [event] on the element of the world. *)
Definition on (event : string) (done : Callback) : M unit :=
  match listener listeners event with
  | Some m => call m done
  | None => mret tt
  end.

(** ** The life of an instance *)

(** [data()]. *)
Definition data : CachedStyles := [].

Definition create (name dimension : string) (duration : Z) (easing : string)
  : Component :=
  {| name := name; dimension := dimension; duration := duration;
     easing := easing; cachedStyles := data |}.

(** [watch: { dimension() { this.clearCachedDimensions(); } }]: the watcher
    runs when the prop takes a value different from the one it had. *)
Definition watch_dimension : M unit := clearCachedDimensions.

Definition set_dimension (d : string) : M unit :=
  c ← get_this;
  if String.eqb d (dimension c) then mret tt
  else put_this (with_dimension d c) ;; watch_dimension.

Definition set_duration (n : Z) : M unit :=
  c ← get_this;
  put_this {| name := name c; dimension := dimension c; duration := n;
              easing := easing c; cachedStyles := cachedStyles c |}.

Definition set_easing (s : string) : M unit :=
  c ← get_this;
  put_this {| name := name c; dimension := dimension c;
              duration := duration c; easing := s;
              cachedStyles := cachedStyles c |}.

Definition set_name (s : string) : M unit :=
  c ← get_this;
  put_this {| name := s; dimension := dimension c; duration := duration c;
              easing := easing c; cachedStyles := cachedStyles c |}.

(** What can happen to an instance: the host raises a hook on an element,
    the parent changes a prop, time passes. *)
Inductive Op :=
  | Hook (event : string) (e : HTMLElement) (done : Callback)
  | SetDimension (d : string)
  | SetDuration (n : Z)
  | SetEasing (s : string)
  | SetName (s : string)
  | Elapse (ms : Z).

Definition step (w : World) (o : Op) : World :=
  match o with
  | Hook event e done => exec (put_el e ;; on event done) w
  | SetDimension d => exec (set_dimension d) w
  | SetDuration n => exec (set_duration n) w
  | SetEasing s => exec (set_easing s) w
  | SetName s => exec (set_name s) w
  | Elapse ms =>
      {| this := this w; el := el w; log := log w;
         now := now w + Z.max 0 ms; timers := timers w |}
  end.

Definition run (ops : list Op) (w : World) : World := fold_left step ops w.

(** A freshly created instance, about to be used on [e]. *)
Definition mount (c : Component) (e : HTMLElement) : World :=
  {| this := c; el := e; log := []; now := 0; timers := [] |}.


(** ** Vocabulary of the statements *)

(** The shape of the cache: empty, or the three keys of the axis. *)
Definition height_keys : list StyleKey := [height; paddingTop; paddingBottom].
Definition width_keys : list StyleKey := [width; paddingLeft; paddingRight].

Definition cache_inv (c : Component) : Prop :=
  cachedStyles c = []
  ∨ (dimension c = "height" ∧ keys (cachedStyles c) = height_keys)
  ∨ (dimension c = "width" ∧ keys (cachedStyles c) = width_keys).

(** The writes that set every key of a cache to a value. *)
Definition writes (f : StyleKey -> string) (ks : list StyleKey) : list Event :=
  map (fun k => StyleWrite (key_name k) (f k)) ks.

(** An inline style after a sequence of events: only writes change it. *)
Definition replay (evs : list Event) (st : Style) : Style :=
  fold_left (fun st e =>
    match e with
    | StyleWrite p v => assign p v st
    | _ => st
    end) evs st.

(** The events of a log that are notifications to the caller. *)
Definition is_emit (e : Event) : bool :=
  match e with Emit _ _ _ => true | _ => false end.

Definition is_timeout (e : Event) : bool :=
  match e with SetTimeout _ _ => true | _ => false end.

(** The style properties an event writes to. *)
Definition written (e : Event) : option string :=
  match e with StyleWrite p _ => Some p | _ => None end.

(** The timers a sequence of events sets when it runs at the instant [t]. *)
Definition timers_of (t : Z) (evs : list Event) : list Timer :=
  flat_map (fun e =>
    match e with
    | SetTimeout h d => [{| due := t + timer_delay d; handler := h |}]
    | _ => []
    end) evs.

(** The world after the instance became [c] and the events [evs] happened
    on the element. *)
Definition effect (evs : list Event) (c : Component) (w : World) : World :=
  {| this := c;
     el := with_style (replay evs (style (el w))) (el w);
     log := log w ++ evs;
     now := now w;
     timers := timers w ++ timers_of (now w) evs |}.

(** One padding of the element: the inline value, or the computed one
    when there is no inline value. *)
Definition padding_value (e : HTMLElement) (prop css : string) : string :=
  if String.eqb (inline (style e) prop) EmptyString
  then computedStyle e (style e) css
  else inline (style e) prop.

Definition padding_reads (e : HTMLElement) (prop css : string) : list Event :=
  StyleRead prop ::
  (if String.eqb (inline (style e) prop) EmptyString then [ComputedRead css] else []).

(** What a measurement of [e] along the axis of [c] yields, and the reads
    it makes. *)
Definition measured (c : Component) (e : HTMLElement) : CachedStyles :=
  if String.eqb (dimension c) "height" then
    [ (height, show (offsetHeight e (style e)) +:+ "px");
      (paddingTop, padding_value e "paddingTop" "padding-top");
      (paddingBottom, padding_value e "paddingBottom" "padding-bottom") ]
  else if String.eqb (dimension c) "width" then
    [ (width, show (offsetWidth e (style e)) +:+ "px");
      (paddingLeft, padding_value e "paddingLeft" "padding-left");
      (paddingRight, padding_value e "paddingRight" "padding-right") ]
  else [].

Definition measure_reads (c : Component) (e : HTMLElement) : list Event :=
  if String.eqb (dimension c) "height" then
    LayoutRead "offsetHeight" ::
    padding_reads e "paddingTop" "padding-top" ++
    padding_reads e "paddingBottom" "padding-bottom"
  else if String.eqb (dimension c) "width" then
    LayoutRead "offsetWidth" ::
    padding_reads e "paddingLeft" "padding-left" ++
    padding_reads e "paddingRight" "padding-right"
  else [].

(** The element while it is measured: hidden, and with no inline
    [display] that could take it out of the layout. *)
Definition probing (e : HTMLElement) : HTMLElement :=
  with_style (assign "display" "" (assign "visibility" "hidden" (style e))) e.

(** The events of one probe of the element [e]. *)
Definition probe_events (c : Component) (e : HTMLElement) : list Event :=
  [ StyleRead "visibility"; StyleRead "display";
    StyleWrite "visibility" "hidden"; StyleWrite "display" "" ]
  ++ measure_reads c (probing e)
  ++ [ StyleWrite "visibility" (inline (style e) "visibility");
       StyleWrite "display" (inline (style e) "display") ].

(** One token of the transition declaration as the specification
    formats it: [<kebab-case-property> <duration>ms <easing>]. *)
Definition token (c : Component) (k : StyleKey) : string :=
  kebab_case (key_name k) +:+ " " +:+ show (duration c) +:+ "ms " +:+ easing c.

(** The world after the probe was asked for: measured and cached when the
    cache was empty, as it was otherwise. *)
Definition probed (w : World) : World :=
  match cachedStyles (this w) with
  | [] =>
      effect (probe_events (this w) (el w))
        (with_cachedStyles (measured (this w) (probing (el w))) (this w)) w
  | _ :: _ => w
  end.

(** The closed state: every cached property at ['0']; the opened state:
    every cached property at its cached value. *)
Definition closed (c : Component) : list Event :=
  writes (fun _ => "0") (keys (cachedStyles c)).

Definition opened (c : Component) : list Event :=
  writes (cached (cachedStyles c)) (keys (cachedStyles c)).

(** The reset of every cached property. *)
Definition unset (c : Component) : list Event :=
  writes (fun _ => "") (keys (cachedStyles c)).

(** The hooks that hand the completion callback on to the caller. *)
Definition takes_done (event : string) : bool :=
  String.eqb event "enter" || String.eqb event "leave".

Definition forwarded (event : string) (done : Callback) : Callback :=
  if takes_done event then done else None.

(** The notifications among the events. *)
Definition notifications (evs : list Event) : list Event :=
  List.filter is_emit evs.


(** The world [w'] is what the settle hook named [event] leaves of [w]:
    the resets happened in this order and cover the keys that were cached,
    the notification came last, no override is left and the cache is
    empty. *)
Definition settled (event : string) (w w' : World) : Prop :=
  log w' = log w
           ++ [StyleWrite "overflow" ""; StyleWrite "transition" ""]
           ++ unset (this w)
           ++ [Emit event (node (el w)) None]
  /\ inline (style (el w')) "overflow" = ""
  /\ inline (style (el w')) "transition" = ""
  /\ Forall (fun k => inline (style (el w')) (key_name k) = "")
       (keys (cachedStyles (this w)))
  /\ cachedStyles (this w') = [].

(** The style a settle hook leaves. *)
Definition settle_style (ks : list StyleKey) (st : Style) : Style :=
  replay (writes (fun _ => "") ks)
    (assign "transition" "" (assign "overflow" "" st)).

(** What a phase hook does when nothing is cached and nothing can be
    measured: the probe finds nothing, no size or padding is written, the
    transition declaration is empty, and the completion is set all the
    same. *)
Definition phase_noop (event : string) (done : Callback) (w w' : World) : Prop :=
  cachedStyles (this w') = []
  /\ transition (this w') = ""
  /\ log w' = log w
              ++ [ StyleRead "visibility"; StyleRead "display";
                   StyleWrite "visibility" "hidden"; StyleWrite "display" "";
                   StyleWrite "visibility" (inline (style (el w)) "visibility");
                   StyleWrite "display" (inline (style (el w)) "display");
                   StyleWrite "overflow" "hidden";
                   ComputedRead (dimension (this w));
                   StyleWrite "transition" "";
                   Emit event (node (el w)) done;
                   SetTimeout done (duration (this w)) ]
  /\ (forall k : StyleKey,
        inline (style (el w')) (key_name k) = inline (style (el w)) (key_name k))
  /\ timers w' = timers w
                 ++ [{| due := now w + timer_delay (duration (this w));
                        handler := done |}].



Definition empty_writes (cs : CachedStyles) : list Event :=
  map (fun kv => StyleWrite (key_name (fst kv)) "") cs.




(** What a settle hook leaves, read off the entries of the cache: the
    resets in their order, one for each cached entry, the notification
    last, no override left and the cache empty. *)
Definition cleaned (event : string) (w w' : World) : Prop :=
  log w' = log w
           ++ [StyleWrite "overflow" ""; StyleWrite "transition" ""]
           ++ empty_writes (cachedStyles (this w))
           ++ [Emit event (node (el w)) None]
  /\ inline (style (el w')) "overflow" = ""
  /\ inline (style (el w')) "transition" = ""
  /\ Forall (fun kv => inline (style (el w')) (key_name (fst kv)) = "")
       (cachedStyles (this w))
  /\ cachedStyles (this w') = [].

(** The sample element while it is open: the cache is populated and the
    element carries the overrides of a phase beside a style of its own. *)
Definition sample_open : World :=
  mount
    (with_cachedStyles
       [(height, "120px"); (paddingTop, "10px"); (paddingBottom, "5px")]
       (create "collapse" "height" 300 "ease-in"))
    {| node := 7;
       style := {[ "height" := "120px"; "paddingTop" := "10px";
                   "paddingBottom" := "5px"; "overflow" := "hidden";
                   "color" := "red" ]};
       offsetHeight := fun _ => 120; offsetWidth := fun _ => 80;
       computedStyle := fun _ _ => "" |}.


(** An event that is neither a notification nor a timer. *)
Definition plain (e : Event) : Prop := is_emit e = false /\ is_timeout e = false.

(** The hook [event], raised with the callback [done], is passed on to
    the caller as one notification of the same name that carries the
    element and the callback [emitted]. *)
Definition reemits (event : string) (done emitted : Callback) (w : World) : Prop :=
  notifications (log (exec (on event done) w))
  = notifications (log w) ++ [Emit event (node (el w)) emitted].

(** A sample element: 120px high, 80px wide while laid out, nothing when
    [display: none] is set inline; paddings come from the style sheet. *)
Definition sample_layout (size : Z) (st : Style) : Z :=
  if String.eqb (inline st "display") "none" then 0 else size.

Definition sample_computed (st : Style) (prop : string) : string :=
  if String.eqb prop "padding-top" then "10px"
  else if String.eqb prop "padding-bottom" then "5px"
  else if String.eqb prop "padding-left" then "3px"
  else if String.eqb prop "padding-right" then "4px"
  else "".

Definition sample_el : HTMLElement :=
  {| node := 7; style := {["display" := "none"]};
     offsetHeight := sample_layout 120; offsetWidth := sample_layout 80;
     computedStyle := sample_computed |}.

Definition sample_this : Component := create "collapse" "height" 300 "ease-in".

(** ** Props and further vocabulary *)

(** The validator of the prop [dimension]:
    [(value) => ['height', 'width'].includes(value)]. *)
Definition validator (value : string) : bool :=
  existsb (fun x => String.eqb x value) ["height"; "width"].

(** [Object.keys(o).length] as a truth value. *)
Definition populated (c : CachedStyles) : bool :=
  match c with
  | [] => false
  | _ :: _ => true
  end.





(** The eight hooks whose methods only notify the caller. *)
Definition relayed : list string :=
  [ "before-appear"; "appear"; "after-appear"; "appear-cancelled";
    "before-enter"; "enter-cancelled"; "before-leave"; "leave-cancelled" ].

(** The world in which the element [e] takes the place of the current
    one, as when the host raises a hook on [e]. *)
Definition on_element (e : HTMLElement) (w : World) : World :=
  {| this := this w; el := e; log := log w; now := now w; timers := timers w |}.

(** The operations that empty a populated cache: the two settle hooks and
    a change of the dimension to another value. *)
Definition clears (w : World) (o : Op) : bool :=
  match o with
  | Hook event _ _ => String.eqb event "after-enter" || String.eqb event "after-leave"
  | SetDimension d => negb (String.eqb d (dimension (this w)))
  | _ => false
  end.

(** A hook whose method only notifies: the instance, the element, the
    timers and the time stay, one notification is added. *)
Definition only_notifies (event : string) (w w' : World) : Prop :=
  this w' = this w /\ el w' = el w /\ timers w' = timers w /\ now w' = now w
  /\ log w' = log w ++ [Emit event (node (el w)) None].

(** Looks the method of a hook up in the template. *)
Ltac run_listener :=
  unfold reemits, on, forwarded;
  match goal with
  | |- context [listener listeners ?e] =>
      let r := eval vm_compute in (listener listeners e) in
      change (listener listeners e) with r
  end;
  match goal with
  | |- context [takes_done ?e] =>
      let r := eval vm_compute in (takes_done e) in
      change (takes_done e) with r
  end;
  cbv iota; cbn [call].

(** * Properties *)

(** ** The kebab-case conversion *)

Section Conversion.

Lemma append_nil (b : string) : EmptyString +:+ b = b.
Proof. reflexivity. Qed.

Lemma append_cons (x : ascii) (a b : string) :
  String x a +:+ b = String x (a +:+ b).
Proof. reflexivity. Qed.

Lemma append_assoc (a b c : string) : (a +:+ b) +:+ c = a +:+ (b +:+ c).
Proof.
  induction a as [|x a IH]; [reflexivity |].
  rewrite !append_cons. now f_equal.
Qed.

Lemma is_upper_toLowerCase (c : ascii) : is_upper (toLowerCase c) = false.
Proof. destruct c as [[] [] [] [] [] [] [] []]; reflexivity. Qed.

Lemma upperChars_app (a b : string) :
  upperChars (a +:+ b) = upperChars a ++ upperChars b.
Proof.
  induction a as [|x a IH]; [reflexivity |].
  rewrite append_cons. simpl.
  destruct (is_upper x); simpl; now rewrite IH.
Qed.

Lemma upperChars_cons_nil (x : ascii) (s : string) :
  upperChars (String x s) = [] -> is_upper x = false /\ upperChars s = [].
Proof. simpl. destruct (is_upper x); [discriminate | auto]. Qed.

Lemma upperChars_hyphen_lower (c : ascii) : upperChars (hyphen_lower c) = [].
Proof.
  unfold hyphen_lower. simpl. now rewrite is_upper_toLowerCase.
Qed.

(** The first occurrence of an upper-case letter [c] lies behind every
    prefix free of upper-case letters. *)
Lemma replace_first_behind (p : string) (c : ascii) (rep s : string) :
  upperChars p = [] -> is_upper c = true ->
  replace_first c rep (p +:+ String c s) = p +:+ (rep +:+ s).
Proof.
  intros Hp Hc. induction p as [|x p IH].
  - rewrite !append_nil. simpl. now rewrite Ascii.eqb_refl.
  - apply upperChars_cons_nil in Hp as [Hx Hp].
    rewrite !append_cons. simpl.
    destruct (Ascii.eqb_spec x c) as [->|_]; [congruence |].
    now rewrite IH.
Qed.

(** The loop turns the part of the string behind the prefix already
    converted into its hyphenated form. *)
Lemma replace_loop_hyphenate (s p : string) :
  upperChars p = [] ->
  replace_loop (upperChars s) (p +:+ s) = p +:+ hyphenate s.
Proof.
  revert p. induction s as [|a s IH]; intros p Hp; [reflexivity |].
  simpl. destruct (is_upper a) eqn:Ha.
  - unfold replace_loop. simpl. fold (replace_loop (upperChars s)).
    rewrite replace_first_behind by assumption.
    rewrite <- append_assoc, IH.
    + now rewrite append_assoc.
    + now rewrite upperChars_app, Hp, upperChars_hyphen_lower.
  - change (String a s) with (String a EmptyString +:+ s).
    rewrite <- append_assoc, IH.
    + now rewrite append_assoc.
    + rewrite upperChars_app, Hp. simpl. now rewrite Ha.
Qed.

Lemma hyphenate_lower (s : string) : upperChars s = [] -> hyphenate s = s.
Proof.
  induction s as [|a s IH]; [reflexivity |].
  intros [Ha Hs]%upperChars_cons_nil. simpl. now rewrite Ha, IH.
Qed.

(** What [convertToCssProperty] computes, in closed form. *)
Lemma convertToCssProperty_closed (s : string) :
  convertToCssProperty s =
    match upperChars s with
    | [] => s
    | _ => strip_hyphen (hyphenate s)
    end.
Proof.
  unfold convertToCssProperty.
  pose proof (replace_loop_hyphenate s EmptyString eq_refl) as H.
  rewrite !append_nil in H.
  destruct (upperChars s); [reflexivity | now rewrite H].
Qed.

Lemma convertToCssProperty_lower (s : string) :
  upperChars s = [] -> convertToCssProperty s = s.
Proof. intros H. unfold convertToCssProperty. now rewrite H. Qed.

Lemma strip_hyphen_other (a : ascii) (s : string) :
  starts_with_hyphen (String a s) = false ->
  strip_hyphen (String a s) = String a s.
Proof. destruct a as [[] [] [] [] [] [] [] []]; simpl; congruence. Qed.

(** On every string that does not begin with a hyphen the code computes
    the transform of the specification. *)
Lemma convertToCssProperty_kebab_case (s : string) :
  starts_with_hyphen s = false -> convertToCssProperty s = kebab_case s.
Proof.
  intros Hs. rewrite convertToCssProperty_closed.
  destruct s as [|a s]; [reflexivity |].
  unfold kebab_case. simpl upperChars. simpl hyphenate.
  destruct (is_upper a) eqn:Ha.
  - reflexivity.
  - destruct (upperChars s) eqn:Hu.
    + now rewrite hyphenate_lower.
    + now rewrite strip_hyphen_other.
Qed.

Lemma key_name_no_hyphen (k : StyleKey) : starts_with_hyphen (key_name k) = false.
Proof. destruct k; reflexivity. Qed.

End Conversion.

(** ** Running the monad *)

Section Running.

Lemma bind_run {A B} (m : M A) (k : A -> M B) (w w' : World) (a : A) :
  m w = (a, w') -> (m ≫= k) w = k a w'.
Proof. intros H. unfold mbind, M_bind, bind. now rewrite H. Qed.


Lemma inline_assign (p v : string) (st : Style) (q : string) :
  inline (assign p v st) q = if decide (p = q) then v else inline st q.
Proof.
  unfold inline, assign.
  destruct (String.eqb_spec v EmptyString) as [->|Hv].
  - rewrite lookup_delete. now case_decide.
  - rewrite lookup_insert. now case_decide.
Qed.

Lemma replay_app (a b : list Event) (st : Style) :
  replay (a ++ b) st = replay b (replay a st).
Proof. apply fold_left_app. Qed.

Lemma timers_of_app (t : Z) (a b : list Event) :
  timers_of t (a ++ b) = timers_of t a ++ timers_of t b.
Proof. apply flat_map_app. Qed.

Lemma with_style_id (e : HTMLElement) : with_style (style e) e = e.
Proof. now destruct e. Qed.

Lemma effect_nil (w : World) : effect [] (this w) w = w.
Proof.
  destruct w as [c e l n t]. unfold effect. simpl.
  now rewrite with_style_id, !app_nil_r.
Qed.

Lemma effect_effect (a b : list Event) (c d : Component) (w : World) :
  effect b d (effect a c w) = effect (a ++ b) d w.
Proof.
  unfold effect. simpl.
  now rewrite replay_app, timers_of_app, !app_assoc.
Qed.

Lemma get_this_run (w : World) : get_this w = (this w, w).
Proof. reflexivity. Qed.

Lemma put_this_run (c : Component) (w : World) :
  put_this c w = (tt, effect [] c w).
Proof.
  destruct w as [c0 e l n t]. unfold put_this, effect. simpl.
  now rewrite with_style_id, !app_nil_r.
Qed.

(** An event that is no write and no timer leaves the element alone. *)
Lemma record_run (ev : Event) (w : World) :
  written ev = None -> is_timeout ev = false ->
  record ev w = (tt, effect [ev] (this w) w).
Proof.
  intros Hw Ht. destruct w as [c e l n t]. unfold record, effect. simpl.
  destruct ev; try discriminate; simpl;
    now rewrite with_style_id, app_nil_r.
Qed.

Lemma style_get_run (p : string) (w : World) :
  style_get p w = (inline (style (el w)) p, effect [StyleRead p] (this w) w).
Proof.
  unfold style_get.
  erewrite bind_run by (now apply record_run).
  reflexivity.
Qed.

Lemma style_set_run (p v : string) (w : World) :
  style_set p v w = (tt, effect [StyleWrite p v] (this w) w).
Proof.
  destruct w as [c e l n t]. unfold style_set, effect. simpl.
  now rewrite app_nil_r.
Qed.

Lemma read_offsetHeight_run (w : World) :
  read_offsetHeight w =
    (offsetHeight (el w) (style (el w)),
     effect [LayoutRead "offsetHeight"] (this w) w).
Proof.
  unfold read_offsetHeight.
  erewrite bind_run by (now apply record_run).
  reflexivity.
Qed.

Lemma read_offsetWidth_run (w : World) :
  read_offsetWidth w =
    (offsetWidth (el w) (style (el w)),
     effect [LayoutRead "offsetWidth"] (this w) w).
Proof.
  unfold read_offsetWidth.
  erewrite bind_run by (now apply record_run).
  reflexivity.
Qed.

Lemma getComputedStyle_run (p : string) (w : World) :
  getComputedStyle p w =
    (computedStyle (el w) (style (el w)) p,
     effect [ComputedRead p] (this w) w).
Proof.
  unfold getComputedStyle.
  erewrite bind_run by (now apply record_run).
  reflexivity.
Qed.

Lemma emit_run (n : string) (d : Callback) (w : World) :
  emit n d w = (tt, effect [Emit n (node (el w)) d] (this w) w).
Proof. unfold emit. simpl. now apply record_run. Qed.

Lemma setTimeout_run (h : Callback) (d : Z) (w : World) :
  setTimeout h d w = (tt, effect [SetTimeout h d] (this w) w).
Proof.
  destruct w as [c e l n t]. unfold setTimeout, effect. simpl.
  now rewrite with_style_id.
Qed.

End Running.

(** ** What each method does *)

Section Methods.

Lemma forEach_writes (ks : list StyleKey) (body : StyleKey -> M unit)
    (f : StyleKey -> string) (c : Component) :
  (forall k w, this w = c ->
     body k w = (tt, effect [StyleWrite (key_name k) (f k)] c w)) ->
  forall w, this w = c -> forEach ks body w = (tt, effect (writes f ks) c w).
Proof.
  intros Hbody. induction ks as [|k ks IH]; intros w Hw.
  - subst c. simpl. now rewrite effect_nil.
  - simpl forEach. erewrite bind_run by (now apply Hbody).
    rewrite IH by reflexivity. now rewrite effect_effect.
Qed.

Lemma setClosedDimensions_run (w : World) :
  setClosedDimensions w =
    (tt, effect (writes (fun _ => "0") (keys (cachedStyles (this w)))) (this w) w).
Proof.
  unfold setClosedDimensions. erewrite bind_run by apply get_this_run.
  apply forEach_writes; [| reflexivity].
  intros k w' <-. apply style_set_run.
Qed.

Lemma unsetDimensions_run (w : World) :
  unsetDimensions w =
    (tt, effect (writes (fun _ => "") (keys (cachedStyles (this w)))) (this w) w).
Proof.
  unfold unsetDimensions. erewrite bind_run by apply get_this_run.
  apply forEach_writes; [| reflexivity].
  intros k w' <-. apply style_set_run.
Qed.

Lemma setOpenedDimensions_run (w : World) :
  setOpenedDimensions w =
    (tt, effect (writes (cached (cachedStyles (this w)))
                   (keys (cachedStyles (this w)))) (this w) w).
Proof.
  unfold setOpenedDimensions. erewrite bind_run by apply get_this_run.
  apply forEach_writes; [| reflexivity].
  intros k w' <-. erewrite bind_run by apply get_this_run.
  apply style_set_run.
Qed.

Lemma setTransition_run (w : World) :
  setTransition w =
    (tt, effect [StyleWrite "transition" (transition (this w))] (this w) w).
Proof.
  unfold setTransition. erewrite bind_run by apply get_this_run.
  apply style_set_run.
Qed.

Lemma forceRepaint_run (w : World) :
  forceRepaint w = (tt, effect [ComputedRead (dimension (this w))] (this w) w).
Proof.
  unfold forceRepaint. erewrite bind_run by apply get_this_run.
  erewrite bind_run by apply getComputedStyle_run.
  reflexivity.
Qed.

Lemma clearCachedDimensions_run (w : World) :
  clearCachedDimensions w = (tt, effect [] (with_cachedStyles [] (this w)) w).
Proof.
  unfold clearCachedDimensions. erewrite bind_run by apply get_this_run.
  apply put_this_run.
Qed.

Lemma padding_run {B} (prop css : string) (k : string -> M B) (w : World) :
  (i ← style_get prop; v ← or_else i (getCssValue css); k v) w =
    k (padding_value (el w) prop css)
      (effect (padding_reads (el w) prop css) (this w) w).
Proof.
  erewrite bind_run by apply style_get_run.
  unfold or_else, padding_value, padding_reads, getCssValue.
  destruct (String.eqb (inline (style (el w)) prop) EmptyString).
  - erewrite bind_run by apply getComputedStyle_run.
    now rewrite effect_effect.
  - reflexivity.
Qed.

Lemma replay_reads (evs : list Event) (st : Style) :
  Forall (fun e => written e = None) evs -> replay evs st = st.
Proof.
  intros H. revert st. induction H as [|e evs He _ IH]; intros st.
  - reflexivity.
  - simpl. destruct e; try discriminate; apply IH.
Qed.

Lemma el_effect_reads (evs : list Event) (c : Component) (w : World) :
  Forall (fun e => written e = None) evs -> el (effect evs c w) = el w.
Proof.
  intros H. simpl. rewrite replay_reads by assumption. apply with_style_id.
Qed.

Lemma padding_reads_ro (e : HTMLElement) (prop css : string) :
  Forall (fun e => written e = None) (padding_reads e prop css).
Proof.
  unfold padding_reads.
  destruct (String.eqb _ _); repeat constructor.
Qed.

Lemma measure_reads_ro (c : Component) (e : HTMLElement) :
  Forall (fun e => written e = None) (measure_reads c e).
Proof.
  unfold measure_reads.
  destruct (String.eqb (dimension c) "height");
    [| destruct (String.eqb (dimension c) "width")];
    try (constructor; [reflexivity |]; apply Forall_app; split;
         apply padding_reads_ro).
  constructor.
Qed.

Lemma detectRelevantDimensions_run (w : World) :
  detectRelevantDimensions w =
    (measured (this w) (el w),
     effect (measure_reads (this w) (el w)) (this w) w).
Proof.
  unfold detectRelevantDimensions, measured, measure_reads.
  erewrite bind_run by apply get_this_run.
  destruct (String.eqb (dimension (this w)) "height").
  - erewrite bind_run by apply read_offsetHeight_run.
    rewrite padding_run, effect_effect.
    rewrite el_effect_reads by (repeat constructor).
    rewrite padding_run, effect_effect.
    rewrite el_effect_reads
      by (apply Forall_cons; split; [reflexivity | apply padding_reads_ro]).
    now rewrite <- app_assoc.
  - destruct (String.eqb (dimension (this w)) "width").
    + erewrite bind_run by apply read_offsetWidth_run.
      rewrite padding_run, effect_effect.
      rewrite el_effect_reads by (repeat constructor).
      rewrite padding_run, effect_effect.
      rewrite el_effect_reads
        by (apply Forall_cons; split; [reflexivity | apply padding_reads_ro]).
      now rewrite <- app_assoc.
    + simpl. now rewrite effect_nil.
Qed.

End Methods.

(** ** The probe *)

Section Probe.

Lemma detect_cached (w : World) :
  cachedStyles (this w) <> [] -> detectAndCacheDimensions w = (tt, w).
Proof.
  intros H. unfold detectAndCacheDimensions.
  erewrite bind_run by apply get_this_run.
  destruct (cachedStyles (this w)); [congruence | reflexivity].
Qed.

Lemma detect_empty (w : World) :
  cachedStyles (this w) = [] ->
  detectAndCacheDimensions w =
    (tt, effect (probe_events (this w) (el w))
           (with_cachedStyles (measured (this w) (probing (el w))) (this w)) w).
Proof.
  intros H. unfold detectAndCacheDimensions.
  erewrite bind_run by apply get_this_run.
  rewrite H. change (0 <? length (keys []))%nat with false. cbv iota.
  erewrite bind_run by apply style_get_run.
  erewrite bind_run by apply style_get_run.
  erewrite bind_run by apply style_set_run.
  erewrite bind_run by apply style_set_run.
  erewrite bind_run by apply detectRelevantDimensions_run.
  erewrite bind_run by apply get_this_run.
  erewrite bind_run by apply put_this_run.
  erewrite bind_run by apply style_set_run.
  rewrite style_set_run.
  rewrite !effect_effect.
  reflexivity.
Qed.

End Probe.

(** ** The transition declaration *)

(** C4: for every cache, the transition declaration is the list of the
    tokens [<kebab-case-property> <duration>ms <easing>], one for each
    cached key in the order of the keys, joined by a comma and a space;
    the kebab-case conversion of the code is the transform of the
    specification on every string that does not begin with a hyphen, which
    covers every key a cache can hold, and returns a string without
    upper-case letters as it is. *)
Theorem transition_declaration (c : Component) :
  transition c = String.concat ", " (map (token c) (keys (cachedStyles c)))
  /\ length (map (token c) (keys (cachedStyles c))) = length (cachedStyles c)
  /\ (forall k : StyleKey, convertToCssProperty (key_name k) = kebab_case (key_name k))
  /\ (forall s : string,
        starts_with_hyphen s = false -> convertToCssProperty s = kebab_case s)
  /\ (forall s : string, upperChars s = [] -> convertToCssProperty s = s).
Proof.
  assert (Hk : forall k, convertToCssProperty (key_name k) = kebab_case (key_name k))
    by (intros k; apply convertToCssProperty_kebab_case, key_name_no_hyphen).
  repeat split.
  - unfold transition. f_equal. apply map_ext. intros k.
    unfold transition_token, token. now rewrite Hk.
  - unfold keys. now rewrite !length_map.
  - exact Hk.
  - apply convertToCssProperty_kebab_case.
  - apply convertToCssProperty_lower.
Qed.

Lemma transition_declaration_witness :
  transition (with_cachedStyles [(height, "120px"); (paddingTop, "10px")] sample_this)
    = "height 300ms ease-in, padding-top 300ms ease-in"
  /\ convertToCssProperty "paddingBottom" = kebab_case "paddingBottom"
  /\ convertToCssProperty "width" = "width".
Proof.
  pose proof (transition_declaration
    (with_cachedStyles [(height, "120px"); (paddingTop, "10px")] sample_this))
    as (Ht & _ & _ & Hs & Hl).
  split; [| split].
  - rewrite Ht. vm_compute. reflexivity.
  - apply Hs. reflexivity.
  - apply Hl. reflexivity.
Defined.

(** ** The phases *)

Section Phases.

Lemma detect_run (w : World) : detectAndCacheDimensions w = (tt, probed w).
Proof.
  unfold probed. destruct (cachedStyles (this w)) eqn:H.
  - now rewrite detect_empty.
  - apply detect_cached. congruence.
Qed.

Lemma node_probed (w : World) : node (el (probed w)) = node (el w).
Proof. unfold probed. now destruct (cachedStyles (this w)). Qed.


Lemma enter_run (done : Callback) (w : World) :
  let c := this (probed w) in
  enter done w =
    (tt, effect (closed c
                 ++ [StyleWrite "overflow" "hidden";
                     ComputedRead (dimension c);
                     StyleWrite "transition" (transition c)]
                 ++ opened c
                 ++ [Emit "enter" (node (el w)) done;
                     SetTimeout done (duration c)]) c (probed w)).
Proof.
  intros c. unfold enter, hideOverflow.
  erewrite bind_run by apply detect_run.
  erewrite bind_run by apply setClosedDimensions_run.
  erewrite bind_run by apply style_set_run.
  erewrite bind_run by apply forceRepaint_run.
  erewrite bind_run by apply setTransition_run.
  erewrite bind_run by apply setOpenedDimensions_run.
  erewrite bind_run by apply emit_run.
  erewrite bind_run by apply get_this_run.
  rewrite setTimeout_run, !effect_effect.
  change (node (el (effect _ _ (probed w)))) with (node (el (probed w))).
  rewrite node_probed. unfold closed, opened.
  now rewrite <- !app_assoc.
Qed.

Lemma leave_run (done : Callback) (w : World) :
  let c := this (probed w) in
  leave done w =
    (tt, effect (opened c
                 ++ [StyleWrite "overflow" "hidden";
                     ComputedRead (dimension c);
                     StyleWrite "transition" (transition c)]
                 ++ closed c
                 ++ [Emit "leave" (node (el w)) done;
                     SetTimeout done (duration c)]) c (probed w)).
Proof.
  intros c. unfold leave, hideOverflow.
  erewrite bind_run by apply detect_run.
  erewrite bind_run by apply setOpenedDimensions_run.
  erewrite bind_run by apply style_set_run.
  erewrite bind_run by apply forceRepaint_run.
  erewrite bind_run by apply setTransition_run.
  erewrite bind_run by apply setClosedDimensions_run.
  erewrite bind_run by apply emit_run.
  erewrite bind_run by apply get_this_run.
  rewrite setTimeout_run, !effect_effect.
  change (node (el (effect _ _ (probed w)))) with (node (el (probed w))).
  rewrite node_probed. unfold closed, opened.
  now rewrite <- !app_assoc.
Qed.

Lemma settle_run (event : string) (w : World) :
  (unsetOverflow ;; unsetTransition ;; unsetDimensions ;;
   clearCachedDimensions ;; emit event None) w =
    (tt, effect ([StyleWrite "overflow" ""; StyleWrite "transition" ""]
                 ++ unset (this w)
                 ++ [Emit event (node (el w)) None])
           (with_cachedStyles [] (this w)) w).
Proof.
  unfold unsetOverflow, unsetTransition.
  erewrite bind_run by apply style_set_run.
  erewrite bind_run by apply style_set_run.
  erewrite bind_run by apply unsetDimensions_run.
  erewrite bind_run by apply clearCachedDimensions_run.
  rewrite emit_run, !effect_effect.
  unfold unset. now rewrite app_nil_r, <- !app_assoc.
Qed.

End Phases.

(** ** The writes of a phase, entry by entry *)

Section Entries.

Lemma keys_fmap (cs : CachedStyles) : keys cs = fst <$> cs.
Proof. induction cs as [|kv cs IH]; [reflexivity |]. simpl. now f_equal. Qed.



Lemma unset_entries (c : Component) : unset c = empty_writes (cachedStyles c).
Proof. unfold unset, writes, keys, empty_writes. apply map_map. Qed.







End Entries.



(** ** The probe: idempotence and frame *)

Section ProbeProperties.

Lemma measured_nil (c : Component) (e e' : HTMLElement) (x : CachedStyles) :
  measured c e = [] -> measured (with_cachedStyles x c) e' = [].
Proof.
  unfold measured. simpl.
  destruct (String.eqb (dimension c) "height"); [discriminate |].
  destruct (String.eqb (dimension c) "width"); [discriminate | reflexivity].
Qed.

Lemma probed_probed_cache (w : World) :
  cachedStyles (this (probed (probed w))) = cachedStyles (this (probed w)).
Proof.
  unfold probed at 2 3.
  destruct (cachedStyles (this w)) eqn:Hc.
  - unfold probed. simpl.
    destruct (measured (this w) (probing (el w))) eqn:Hm; [| reflexivity].
    simpl. eapply measured_nil, Hm.
  - unfold probed. now rewrite Hc.
Qed.

Lemma style_probed (w : World) (p : string) :
  inline (style (el (probed w))) p = inline (style (el w)) p.
Proof.
  unfold probed. destruct (cachedStyles (this w)); [| reflexivity].
  unfold probe_events. simpl el. simpl style.
  rewrite !replay_app, (replay_reads (measure_reads _ _)) by apply measure_reads_ro.
  simpl. rewrite !inline_assign.
  repeat case_decide; congruence.
Qed.

Lemma probe_events_writes (c : Component) (e : HTMLElement) :
  Forall (fun ev => written ev = None
                    \/ written ev = Some "visibility"
                    \/ written ev = Some "display") (probe_events c e).
Proof.
  unfold probe_events. repeat (apply Forall_app; split).
  - repeat (apply List.Forall_cons; [simpl; auto |]). apply List.Forall_nil.
  - eapply Forall_impl; [apply measure_reads_ro |]. simpl. auto.
  - repeat (apply List.Forall_cons; [simpl; auto |]). apply List.Forall_nil.
Qed.

End ProbeProperties.

(** C2: while the cache is not empty, [detectAndCacheDimensions] changes
    nothing at all: the cache, the element and the log are as before, so
    nothing was read from the element and no style was written; and
    whatever the state, a second call in a row leaves the cache that the
    first call left. *)
Theorem probe_idempotent (w : World) (H : cachedStyles (this w) <> []) :
  detectAndCacheDimensions w = (tt, w)
  /\ (forall w0 : World,
        cachedStyles (this (exec detectAndCacheDimensions
                              (exec detectAndCacheDimensions w0)))
        = cachedStyles (this (exec detectAndCacheDimensions w0))).
Proof.
  split.
  - now apply detect_cached.
  - intros w0. unfold exec. rewrite !detect_run. simpl.
    apply probed_probed_cache.
Qed.

(** C5: on an empty cache the probe reads the inline visibility and
    display, hides the element and clears its inline display, measures the
    element in that state (the laid-out size, and each padding from the
    inline style or, when that is empty, from the computed style), caches
    the result, and writes the visibility and display it read back; every
    inline style of the element, visibility and display included, reads
    afterwards as it did before, and the probe writes to no other
    property. *)
Theorem probe_frame (w : World) (H : cachedStyles (this w) = []) :
  let w' := exec detectAndCacheDimensions w in
  log w' = log w ++ probe_events (this w) (el w)
  /\ cachedStyles (this w') = measured (this w) (probing (el w))
  /\ (forall p : string,
        inline (style (probing (el w))) p =
          if decide (p = "display") then ""
          else if decide (p = "visibility") then "hidden"
          else inline (style (el w)) p)
  /\ (forall p : string, inline (style (el w')) p = inline (style (el w)) p)
  /\ node (el w') = node (el w)
  /\ offsetHeight (el w') = offsetHeight (el w)
  /\ offsetWidth (el w') = offsetWidth (el w)
  /\ computedStyle (el w') = computedStyle (el w)
  /\ Forall (fun ev => written ev = None
                       \/ written ev = Some "visibility"
                       \/ written ev = Some "display")
       (probe_events (this w) (el w)).
Proof.
  intros w'. subst w'. unfold exec. rewrite detect_run. simpl snd.
  repeat split.
  - unfold probed. now rewrite H.
  - unfold probed. now rewrite H.
  - intros p. unfold probing. simpl. rewrite !inline_assign.
    repeat case_decide; congruence.
  - apply style_probed.
  - apply node_probed.
  - unfold probed. now rewrite H.
  - unfold probed. now rewrite H.
  - unfold probed. now rewrite H.
  - apply probe_events_writes.
Qed.

Lemma probe_idempotent_witness :
  detectAndCacheDimensions
    (mount (with_cachedStyles [(height, "120px")] sample_this) sample_el)
  = (tt, mount (with_cachedStyles [(height, "120px")] sample_this) sample_el).
Proof.
  apply (probe_idempotent
           (mount (with_cachedStyles [(height, "120px")] sample_this) sample_el)).
  simpl. discriminate.
Defined.

Lemma probe_frame_witness :
  cachedStyles (this (exec detectAndCacheDimensions (mount sample_this sample_el)))
  = [(height, "120px"); (paddingTop, "10px"); (paddingBottom, "5px")].
Proof.
  pose proof (probe_frame (mount sample_this sample_el) eq_refl) as (_ & Hc & _).
  rewrite Hc. vm_compute. reflexivity.
Defined.

(** ** Settling *)

Section Settle.

Lemma key_name_other (k : StyleKey) :
  key_name k <> "overflow" /\ key_name k <> "transition"
  /\ key_name k <> "visibility" /\ key_name k <> "display".
Proof. destruct k; repeat split; discriminate. Qed.

Lemma lookup_assign (p v : string) (st : Style) (q : string) :
  assign p v st !! q =
    if decide (p = q) then (if String.eqb v "" then None else Some v)
    else st !! q.
Proof.
  unfold assign. destruct (String.eqb v "").
  - apply lookup_delete.
  - apply lookup_insert.
Qed.

(** The style after every key of [ks] was set to [v]. *)
Lemma lookup_replay_const (v : string) (ks : list StyleKey) (st : Style)
    (p : string) :
  replay (writes (fun _ => v) ks) st !! p =
    if decide (p ∈ key_name <$> ks)
    then (if String.eqb v "" then None else Some v)
    else st !! p.
Proof.
  revert st. induction ks as [|k ks IH]; intros st.
  - simpl. destruct (decide (p ∈ [])) as [H|H]; [| reflexivity].
    now apply elem_of_nil in H.
  - simpl replay. rewrite IH, lookup_assign, fmap_cons.
    destruct (decide (p ∈ key_name <$> ks)) as [H1|H1];
      destruct (decide (key_name k = p)) as [H2|H2];
      destruct (decide (p ∈ key_name k :: (key_name <$> ks))) as [H3|H3];
      try reflexivity; exfalso;
      rewrite elem_of_cons in H3; intuition congruence.
Qed.

Lemma replay_settle (event : string) (n : nat) (c : Component) (st : Style) :
  replay ([StyleWrite "overflow" ""; StyleWrite "transition" ""]
          ++ unset c ++ [Emit event n None]) st
  = settle_style (keys (cachedStyles c)) st.
Proof.
  rewrite !replay_app. reflexivity.
Qed.

Lemma lookup_settle_style (ks : list StyleKey) (st : Style) (p : string) :
  settle_style ks st !! p =
    if decide (p ∈ key_name <$> ks) then None
    else if decide (p = "transition") then None
    else if decide (p = "overflow") then None
    else st !! p.
Proof.
  unfold settle_style. rewrite lookup_replay_const.
  case_decide; [reflexivity |].
  rewrite !lookup_assign. simpl.
  repeat case_decide; congruence.
Qed.

Lemma settle_style_again (ks : list StyleKey) (st : Style) :
  settle_style [] (settle_style ks st) = settle_style ks st.
Proof.
  apply map_eq. intros p.
  rewrite (lookup_settle_style []), !lookup_settle_style.
  destruct (decide (p ∈ key_name <$> [])) as [H|_];
    [now apply elem_of_nil in H |].
  repeat case_decide; reflexivity.
Qed.

Lemma settle_settled (event : string) (w : World) :
  settled event w
    (exec (unsetOverflow ;; unsetTransition ;; unsetDimensions ;;
           clearCachedDimensions ;; emit event None) w).
Proof.
  unfold exec. rewrite settle_run.
  unfold settled, effect. cbn [snd this log el style with_style].
  rewrite replay_settle.
  assert (Hi : forall p, inline (settle_style (keys (cachedStyles (this w)))
                                   (style (el w))) p =
               default "" (settle_style (keys (cachedStyles (this w)))
                             (style (el w)) !! p)) by reflexivity.
  repeat split.
  - rewrite Hi, lookup_settle_style.
    repeat case_decide; first [reflexivity | congruence].
  - rewrite Hi, lookup_settle_style.
    repeat case_decide; first [reflexivity | congruence].
  - apply Forall_forall. intros k Hk.
    rewrite Hi, lookup_settle_style.
    destruct (decide (key_name k ∈ _)) as [Hn|Hn]; [reflexivity |].
    exfalso. apply Hn. now apply list_elem_of_fmap_2.
Qed.

End Settle.

Lemma settle_cleaned (event : string) (w : World) :
  cleaned event w
    (exec (unsetOverflow ;; unsetTransition ;; unsetDimensions ;;
           clearCachedDimensions ;; emit event None) w).
Proof.
  destruct (settle_settled event w) as (Hl & Ho & Ht & Hk & Hc).
  unfold cleaned. rewrite <- unset_entries.
  repeat split; try assumption.
  rewrite keys_fmap in Hk. now apply Forall_fmap in Hk.
Qed.

(** C3: [afterEnter] and [afterLeave] reset the inline overflow, then the
    inline transition, then the inline style of the property of every
    entry the cache holds at that moment (size and paddings of the axis
    while a phase is in flight), and only then empty the cache; the
    notification of the same name is emitted last.  Afterwards the element
    has no inline overflow, no inline transition and no inline value for
    the property of any entry that was cached, and the cache is empty. *)
Theorem settle_cleanup (w : World) :
  cleaned "after-enter" w (exec afterEnter w)
  /\ cleaned "after-leave" w (exec afterLeave w).
Proof.
  split; apply settle_cleaned.
Qed.

Lemma settle_cleanup_witness :
  log (exec afterEnter sample_open)
  = [ StyleWrite "overflow" ""; StyleWrite "transition" "";
      StyleWrite "height" ""; StyleWrite "paddingTop" "";
      StyleWrite "paddingBottom" ""; Emit "after-enter" 7%nat None ]
  /\ inline (style (el (exec afterEnter sample_open))) "height" = ""
  /\ inline (style (el (exec afterEnter sample_open))) "paddingTop" = ""
  /\ inline (style (el (exec afterEnter sample_open))) "paddingBottom" = ""
  /\ inline (style (el (exec afterEnter sample_open))) "overflow" = ""
  /\ cachedStyles (this (exec afterEnter sample_open)) = [].
Proof.
  destruct (settle_cleanup sample_open) as [(Hl & Ho & _ & Hk & Hc) _].
  change (cachedStyles (this sample_open))
    with [(height, "120px"); (paddingTop, "10px"); (paddingBottom, "5px")]
    in Hk.
  apply Forall_cons in Hk as [Hh Hk].
  apply Forall_cons in Hk as [Hp Hk].
  apply Forall_cons in Hk as [Hb _].
  repeat split; assumption.
Defined.

Section SettleTwice.

Lemma settle_twice (first second : string) (w : World) :
  let settle event :=
    (unsetOverflow ;; unsetTransition ;; unsetDimensions ;;
     clearCachedDimensions ;; emit event None) in
  this (exec (settle second) (exec (settle first) w))
    = this (exec (settle first) w)
  /\ el (exec (settle second) (exec (settle first) w))
    = el (exec (settle first) w).
Proof.
  intros settle. subst settle. unfold exec. rewrite !settle_run.
  unfold effect. cbn [snd this log el style with_style].
  split; [reflexivity |].
  rewrite !replay_settle. cbn [cachedStyles with_cachedStyles keys map].
  unfold with_style. cbn [style node offsetHeight offsetWidth computedStyle].
  now rewrite settle_style_again.
Qed.

Lemma settle_empty (event : string) (w : World) :
  cachedStyles (this w) = [] ->
  log (exec (unsetOverflow ;; unsetTransition ;; unsetDimensions ;;
             clearCachedDimensions ;; emit event None) w)
  = log w ++ [StyleWrite "overflow" ""; StyleWrite "transition" "";
              Emit event (node (el w)) None].
Proof.
  intros H. unfold exec. rewrite settle_run.
  unfold effect, unset. cbn [snd log]. now rewrite H.
Qed.

End SettleTwice.

(** C10: on an empty cache, [afterEnter] and [afterLeave] write the empty
    string to the inline overflow and to the inline transition, emit
    their notification, and write to no other style property; and in
    every state, a settle hook that runs right after a settle hook leaves
    the instance (the cache with it) and the element as the first one left
    them. *)
Theorem settle_idempotent (w : World) (H : cachedStyles (this w) = []) :
  log (exec afterEnter w)
    = log w ++ [StyleWrite "overflow" ""; StyleWrite "transition" "";
                Emit "after-enter" (node (el w)) None]
  /\ log (exec afterLeave w)
    = log w ++ [StyleWrite "overflow" ""; StyleWrite "transition" "";
                Emit "after-leave" (node (el w)) None]
  /\ (forall w0 : World,
        this (exec afterEnter (exec afterEnter w0)) = this (exec afterEnter w0)
        /\ el (exec afterEnter (exec afterEnter w0)) = el (exec afterEnter w0))
  /\ (forall w0 : World,
        this (exec afterLeave (exec afterLeave w0)) = this (exec afterLeave w0)
        /\ el (exec afterLeave (exec afterLeave w0)) = el (exec afterLeave w0))
  /\ (forall w0 : World,
        this (exec afterLeave (exec afterEnter w0)) = this (exec afterEnter w0)
        /\ el (exec afterLeave (exec afterEnter w0)) = el (exec afterEnter w0)).
Proof.
  repeat apply conj.
  - now apply settle_empty.
  - now apply settle_empty.
  - intros w0. apply (settle_twice "after-enter" "after-enter").
  - intros w0. apply (settle_twice "after-leave" "after-leave").
  - intros w0. apply (settle_twice "after-enter" "after-leave").
Qed.

Lemma settle_idempotent_witness :
  log (exec afterEnter (mount sample_this sample_el))
  = [StyleWrite "overflow" ""; StyleWrite "transition" "";
     Emit "after-enter" 7%nat None].
Proof.
  apply (settle_idempotent (mount sample_this sample_el)). reflexivity.
Defined.

(** ** Notifications and timers of a phase *)

Section Plain.

Lemma notifications_plain (evs : list Event) :
  Forall plain evs -> notifications evs = [].
Proof.
  induction 1 as [|e evs [He _] _ IH]; [reflexivity |].
  unfold notifications in *. simpl. now rewrite He.
Qed.


Lemma timers_of_plain (t : Z) (evs : list Event) :
  Forall plain evs -> timers_of t evs = [].
Proof.
  induction 1 as [|e evs [_ He] _ IH]; [reflexivity |].
  unfold timers_of in *. simpl. rewrite IH.
  destruct e; try discriminate; reflexivity.
Qed.

Lemma writes_plain (f : StyleKey -> string) (ks : list StyleKey) :
  Forall plain (writes f ks).
Proof.
  unfold writes. apply Forall_fmap, Forall_true. intros k. now split.
Qed.

Lemma padding_reads_plain (e : HTMLElement) (prop css : string) :
  Forall plain (padding_reads e prop css).
Proof.
  unfold padding_reads.
  destruct (String.eqb _ _); repeat (apply List.Forall_cons; [now split |]);
    apply List.Forall_nil.
Qed.

Lemma measure_reads_plain (c : Component) (e : HTMLElement) :
  Forall plain (measure_reads c e).
Proof.
  unfold measure_reads.
  destruct (String.eqb (dimension c) "height");
    [| destruct (String.eqb (dimension c) "width")];
    try (apply List.Forall_cons; [now split |]; apply Forall_app; split;
         apply padding_reads_plain).
  apply List.Forall_nil.
Qed.

Lemma probe_events_plain (c : Component) (e : HTMLElement) :
  Forall plain (probe_events c e).
Proof.
  unfold probe_events. repeat (apply Forall_app; split).
  - repeat (apply List.Forall_cons; [now split |]). apply List.Forall_nil.
  - apply measure_reads_plain.
  - repeat (apply List.Forall_cons; [now split |]). apply List.Forall_nil.
Qed.

(** What the probe adds to the log is plain. *)
Lemma log_probed (w : World) :
  exists evs, log (probed w) = log w ++ evs /\ Forall plain evs.
Proof.
  unfold probed. destruct (cachedStyles (this w)).
  - eexists. split; [reflexivity | apply probe_events_plain].
  - exists []. split; [now rewrite app_nil_r | constructor].
Qed.

Lemma timers_probed (w : World) : timers (probed w) = timers w.
Proof.
  unfold probed. destruct (cachedStyles (this w)); [| reflexivity].
  unfold effect. cbn [timers].
  now rewrite timers_of_plain, app_nil_r by apply probe_events_plain.
Qed.

Lemma props_probed (w : World) :
  dimension (this (probed w)) = dimension (this w)
  /\ duration (this (probed w)) = duration (this w)
  /\ easing (this (probed w)) = easing (this w)
  /\ name (this (probed w)) = name (this w).
Proof. unfold probed. now destruct (cachedStyles (this w)). Qed.

End Plain.

Section Completion.









End Completion.




(** ** An axis that is neither height nor width *)

Section Unsupported.

Variable w : World.
Hypothesis not_height : dimension (this w) <> "height".
Hypothesis not_width : dimension (this w) <> "width".

Lemma measured_unsupported (e : HTMLElement) :
  measured (this w) e = [] /\ measure_reads (this w) e = [].
Proof.
  unfold measured, measure_reads.
  destruct (String.eqb_spec (dimension (this w)) "height"); [contradiction |].
  destruct (String.eqb_spec (dimension (this w)) "width"); [contradiction |].
  now split.
Qed.

Lemma cache_unsupported : cache_inv (this w) -> cachedStyles (this w) = [].
Proof. intros [H | [[H _] | [H _]]]; [assumption | contradiction ..]. Qed.

Lemma probed_unsupported :
  cachedStyles (this w) = [] ->
  probed w =
    effect [ StyleRead "visibility"; StyleRead "display";
             StyleWrite "visibility" "hidden"; StyleWrite "display" "";
             StyleWrite "visibility" (inline (style (el w)) "visibility");
             StyleWrite "display" (inline (style (el w)) "display") ]
      (with_cachedStyles [] (this w)) w.
Proof.
  intros H. unfold probed, probe_events. rewrite H.
  destruct (measured_unsupported (probing (el w))) as [-> ->].
  reflexivity.
Qed.

Lemma phase_noop_effect (event : string) (done : Callback) :
  cachedStyles (this w) = [] ->
  let c := this (probed w) in
  forall first last : list Event,
  first = [] -> last = [] ->
  phase_noop event done w
    (effect (first
             ++ [StyleWrite "overflow" "hidden";
                 ComputedRead (dimension c);
                 StyleWrite "transition" (transition c)]
             ++ last
             ++ [Emit event (node (el w)) done;
                 SetTimeout done (duration c)]) c (probed w)).
Proof.
  intros H c first last -> ->. subst c.
  rewrite (probed_unsupported H), effect_effect.
  unfold phase_noop, effect.
  cbn [this log el style with_style timers now cachedStyles
       with_cachedStyles dimension duration app].
  repeat apply conj; try reflexivity.
  intros k. destruct (key_name_other k) as (Ho & Ht & Hv & Hd).
  cbn [replay fold_left]. rewrite !inline_assign.
  repeat case_decide; congruence.
Qed.

End Unsupported.

(** C6: when the dimension is neither ["height"] nor ["width"], measuring
    yields the empty mapping; [enter] and [leave] then leave the cache
    empty and the transition declaration empty, write only to visibility,
    display, overflow and transition, so that every size and padding
    property of the element reads as before, and still emit their
    notification and set the timer for the callback with the configured
    duration. *)
Theorem unsupported_dimension (w : World) (done : Callback)
    (not_height : dimension (this w) <> "height")
    (not_width : dimension (this w) <> "width")
    (inv : cache_inv (this w)) :
  eval detectRelevantDimensions w = []
  /\ phase_noop "enter" done w (exec (enter done) w)
  /\ phase_noop "leave" done w (exec (leave done) w).
Proof.
  pose proof (cache_unsupported w not_height not_width inv) as Hc.
  assert (Hp : cachedStyles (this (probed w)) = []).
  { rewrite (probed_unsupported w not_height not_width Hc). reflexivity. }
  split; [| split].
  - unfold eval. rewrite detectRelevantDimensions_run.
    apply (measured_unsupported w not_height not_width).
  - unfold exec. rewrite enter_run. cbn [snd].
    apply phase_noop_effect; try assumption.
    + unfold closed. now rewrite Hp.
    + unfold opened. now rewrite Hp.
  - unfold exec. rewrite leave_run. cbn [snd].
    apply phase_noop_effect; try assumption.
    + unfold opened. now rewrite Hp.
    + unfold closed. now rewrite Hp.
Qed.

Lemma unsupported_dimension_witness :
  eval detectRelevantDimensions
    (mount (create "collapse" "depth" 300 "ease-in") sample_el) = []
  /\ log (exec (enter (Some 1%nat))
            (mount (create "collapse" "depth" 300 "ease-in") sample_el))
     = [ StyleRead "visibility"; StyleRead "display";
         StyleWrite "visibility" "hidden"; StyleWrite "display" "";
         StyleWrite "visibility" ""; StyleWrite "display" "none";
         StyleWrite "overflow" "hidden"; ComputedRead "depth";
         StyleWrite "transition" "";
         Emit "enter" 7%nat (Some 1%nat); SetTimeout (Some 1%nat) 300 ].
Proof.
  assert (Hh : "depth" <> "height") by discriminate.
  assert (Hw : "depth" <> "width") by discriminate.
  pose proof (unsupported_dimension
    (mount (create "collapse" "depth" 300 "ease-in") sample_el) (Some 1%nat)
    Hh Hw (or_introl eq_refl)) as (Hm & (_ & _ & Hl & _) & _).
  split; [exact Hm | exact Hl].
Defined.

(** ** The twelve hooks *)

Section Hooks.

Lemma notifications_app (a b : list Event) :
  notifications (a ++ b) = notifications a ++ notifications b.
Proof. apply List.filter_app. Qed.

Lemma emit_reemits (event : string) (done : Callback) (w : World) :
  notifications (log (exec (emit event done) w))
  = notifications (log w) ++ [Emit event (node (el w)) done].
Proof.
  unfold exec. rewrite emit_run. unfold effect. cbn [snd log].
  now rewrite notifications_app.
Qed.

Lemma phase_reemits (event : string) (first mid last : list Event)
    (done : Callback) (d : Z) (c : Component) (w : World) :
  Forall plain first -> Forall plain mid -> Forall plain last ->
  notifications
    (log (effect (first ++ mid ++ last
                  ++ [Emit event (node (el w)) done; SetTimeout done d])
            c (probed w)))
  = notifications (log w) ++ [Emit event (node (el w)) done].
Proof.
  intros Hf Hm Hl. destruct (log_probed w) as (evs & Hlog & Hevs).
  unfold effect. cbn [log]. rewrite Hlog, !notifications_app.
  rewrite (notifications_plain evs), (notifications_plain first),
    (notifications_plain mid), (notifications_plain last) by assumption.
  now rewrite app_nil_r.
Qed.

Lemma enter_reemits (done : Callback) (w : World) :
  notifications (log (exec (enter done) w))
  = notifications (log w) ++ [Emit "enter" (node (el w)) done].
Proof.
  unfold exec. rewrite enter_run. cbn [snd].
  apply phase_reemits; try apply writes_plain.
  repeat (apply List.Forall_cons; [now split |]). apply List.Forall_nil.
Qed.

Lemma leave_reemits (done : Callback) (w : World) :
  notifications (log (exec (leave done) w))
  = notifications (log w) ++ [Emit "leave" (node (el w)) done].
Proof.
  unfold exec. rewrite leave_run. cbn [snd].
  apply phase_reemits; try apply writes_plain.
  repeat (apply List.Forall_cons; [now split |]). apply List.Forall_nil.
Qed.

Lemma settle_reemits (event : string) (w : World) :
  notifications
    (log (exec (unsetOverflow ;; unsetTransition ;; unsetDimensions ;;
                clearCachedDimensions ;; emit event None) w))
  = notifications (log w) ++ [Emit event (node (el w)) None].
Proof.
  destruct (settle_settled event w) as (-> & _).
  rewrite !notifications_app.
  rewrite (notifications_plain (unset _)) by apply writes_plain.
  reflexivity.
Qed.

End Hooks.

(** C7, as the code has it: each of the twelve hooks of the template is
    passed on as exactly one notification of the same name that carries
    the element; the callback is passed on with it by [enter] and [leave],
    the two methods that take one, and by no other hook. *)
Theorem hooks_reemitted :
  hook_names =
    [ "before-appear"; "appear"; "after-appear"; "appear-cancelled";
      "before-enter"; "enter"; "after-enter"; "enter-cancelled";
      "before-leave"; "leave"; "after-leave"; "leave-cancelled" ]
  /\ Forall (fun event =>
       forall (w : World) (done : Callback),
         reemits event done (forwarded event done) w) hook_names.
Proof.
  split; [reflexivity |].
  change hook_names with
    [ "before-appear"; "appear"; "after-appear"; "appear-cancelled";
      "before-enter"; "enter"; "after-enter"; "enter-cancelled";
      "before-leave"; "leave"; "after-leave"; "leave-cancelled" ].
  repeat (apply List.Forall_cons;
          [ intros w done; run_listener;
            lazymatch goal with
            | |- context [exec (enter _)] => apply enter_reemits
            | |- context [exec (leave _)] => apply leave_reemits
            | |- context [exec afterEnter] => apply (settle_reemits "after-enter")
            | |- context [exec afterLeave] => apply (settle_reemits "after-leave")
            | |- context [exec ?m] => unfold m; apply emit_reemits
            end |]).
  apply List.Forall_nil.
Qed.

(** The claim C7 as it is worded fails on [appear]: the host hands the
    hook a callback, the notification carries none. *)
Lemma appear_drops_callback :
  ~ reemits "appear" (Some 1%nat) (Some 1%nat) (mount sample_this sample_el).
Proof.
  unfold reemits. vm_compute. discriminate.
Qed.

(** ** The shape of the cache *)

Section Invariant.

Lemma cache_inv_same (c c' : Component) :
  dimension c' = dimension c -> cachedStyles c' = cachedStyles c ->
  cache_inv c -> cache_inv c'.
Proof. unfold cache_inv. intros -> ->. auto. Qed.

Lemma cache_inv_clear (c : Component) : cache_inv (with_cachedStyles [] c).
Proof. now left. Qed.

Lemma cache_inv_probed (w : World) :
  cache_inv (this w) -> cache_inv (this (probed w)).
Proof.
  intros H. unfold probed. destruct (cachedStyles (this w)); [| assumption].
  unfold effect, cache_inv, measured.
  cbn [this cachedStyles with_cachedStyles dimension].
  destruct (String.eqb_spec (dimension (this w)) "height") as [Hh|_].
  - right. left. now split.
  - destruct (String.eqb_spec (dimension (this w)) "width") as [Hw|_].
    + right. right. now split.
    + now left.
Qed.

Lemma call_inv (m : Method) (done : Callback) (w : World) :
  cache_inv (this w) -> cache_inv (this (exec (call m done) w)).
Proof.
  intros H. unfold exec.
  destruct m; cbn [call];
    lazymatch goal with
    | |- context [enter] => rewrite enter_run; now apply cache_inv_probed
    | |- context [leave] => rewrite leave_run; now apply cache_inv_probed
    | |- context [afterEnter] =>
        unfold afterEnter; rewrite settle_run; apply cache_inv_clear
    | |- context [afterLeave] =>
        unfold afterLeave; rewrite settle_run; apply cache_inv_clear
    | |- context [snd (?f w)] => unfold f; now rewrite emit_run
    end.
Qed.

Lemma on_inv (event : string) (done : Callback) (w : World) :
  cache_inv (this w) -> cache_inv (this (exec (on event done) w)).
Proof.
  intros H. unfold on. destruct (listener listeners event).
  - now apply call_inv.
  - assumption.
Qed.

Lemma set_dimension_run (d : string) (w : World) :
  exec (set_dimension d) w =
    if String.eqb d (dimension (this w)) then w
    else effect [] (with_cachedStyles [] (with_dimension d (this w))) w.
Proof.
  unfold exec, set_dimension, watch_dimension.
  erewrite bind_run by apply get_this_run.
  destruct (String.eqb d (dimension (this w))); [reflexivity |].
  erewrite bind_run by apply put_this_run.
  rewrite clearCachedDimensions_run, effect_effect. reflexivity.
Qed.

Lemma step_inv (w : World) (o : Op) :
  cache_inv (this w) -> cache_inv (this (step w o)).
Proof.
  intros H. destruct o as [event e done | d | n | s | s | ms]; cbn [step].
  - apply (on_inv event done
             {| this := this w; el := e; log := log w; now := now w;
                timers := timers w |}), H.
  - rewrite set_dimension_run.
    destruct (String.eqb d (dimension (this w))); [assumption |].
    apply cache_inv_clear.
  - revert H. now apply cache_inv_same.
  - revert H. now apply cache_inv_same.
  - revert H. now apply cache_inv_same.
  - assumption.
Qed.

Lemma run_inv (ops : list Op) (w : World) :
  cache_inv (this w) -> cache_inv (this (run ops w)).
Proof.
  revert w. induction ops as [|o ops IH]; intros w H; [assumption |].
  apply IH, step_inv, H.
Qed.

End Invariant.

(** C8: in every state an instance can reach from its creation, through
    hooks raised on any elements, prop changes and the passing of time,
    the cache is empty, or holds exactly height, paddingTop and
    paddingBottom while the dimension is ["height"], or exactly width,
    paddingLeft and paddingRight while the dimension is ["width"]; the two
    sets of keys have no key in common; every single operation keeps this;
    and a change of the dimension to a different value leaves the cache
    empty. *)
Theorem cache_invariant (n d0 : string) (ms : Z) (ease : string)
    (e : HTMLElement) (ops : list Op) :
  cache_inv (this (run ops (mount (create n d0 ms ease) e)))
  /\ (forall (w : World) (o : Op),
        cache_inv (this w) -> cache_inv (this (step w o)))
  /\ (forall (w : World) (d : string),
        d <> dimension (this w) ->
        cachedStyles (this (step w (SetDimension d))) = []
        /\ dimension (this (step w (SetDimension d))) = d)
  /\ Forall (fun k => k ∉ width_keys) height_keys.
Proof.
  repeat apply conj.
  - apply run_inv. now left.
  - apply step_inv.
  - intros w d Hd. cbn [step]. rewrite set_dimension_run.
    destruct (String.eqb_spec d (dimension (this w)));
      [contradiction | now split].
  - repeat (apply List.Forall_cons;
            [intros H; repeat (apply elem_of_cons in H as [H|H];
                               [discriminate |]);
             now apply elem_of_nil in H |]).
    apply List.Forall_nil.
Qed.

Lemma cache_invariant_witness :
  cache_inv (this (step (exec (enter None) (mount sample_this sample_el))
                     (Hook "before-leave" sample_el None)))
  /\ cachedStyles (this (step (exec (enter None) (mount sample_this sample_el))
                           (SetDimension "width"))) = [].
Proof.
  pose proof (cache_invariant "collapse" "height" 300 "ease-in" sample_el
                [Hook "enter" sample_el None]) as (Hr & Hs & Hd & _).
  split.
  - apply Hs. exact Hr.
  - apply Hd. vm_compute. discriminate.
Defined.

(** ** The scenario of the specification

    Axis height, 300 ms, ease-in, an element 120px high with paddings of
    10px and 5px from the style sheet, hidden by an inline
    [display: none]. *)

Example scenario_enter_log :
  log (exec (enter (Some 1%nat)) (mount sample_this sample_el))
  = [ StyleRead "visibility"; StyleRead "display";
      StyleWrite "visibility" "hidden"; StyleWrite "display" "";
      LayoutRead "offsetHeight";
      StyleRead "paddingTop"; ComputedRead "padding-top";
      StyleRead "paddingBottom"; ComputedRead "padding-bottom";
      StyleWrite "visibility" ""; StyleWrite "display" "none";
      StyleWrite "height" "0"; StyleWrite "paddingTop" "0";
      StyleWrite "paddingBottom" "0";
      StyleWrite "overflow" "hidden"; ComputedRead "height";
      StyleWrite "transition"
        "height 300ms ease-in, padding-top 300ms ease-in, padding-bottom 300ms ease-in";
      StyleWrite "height" "120px"; StyleWrite "paddingTop" "10px";
      StyleWrite "paddingBottom" "5px";
      Emit "enter" 7%nat (Some 1%nat); SetTimeout (Some 1%nat) 300 ].
Proof. vm_compute. reflexivity. Qed.

Example scenario_enter_settled :
  let w := exec afterEnter (exec (enter (Some 1%nat)) (mount sample_this sample_el)) in
  style (el w) = style sample_el /\ cachedStyles (this w) = [].
Proof. vm_compute. split; reflexivity. Qed.

Example scenario_leave_cache :
  cachedStyles (this (exec (leave (Some 2%nat)) (mount sample_this sample_el)))
  = [(height, "120px"); (paddingTop, "10px"); (paddingBottom, "5px")].
Proof. vm_compute. reflexivity. Qed.

Example scenario_width :
  cachedStyles
    (this (run [SetDimension "width"; Hook "enter" sample_el (Some 3%nat)]
             (exec (enter (Some 1%nat)) (mount sample_this sample_el))))
  = [(width, "80px"); (paddingLeft, "3px"); (paddingRight, "4px")].
Proof. vm_compute. reflexivity. Qed.

Example convert_paddingTop : convertToCssProperty "paddingTop" = "padding-top".
Proof. reflexivity. Qed.

Example convert_repeated_letter : convertToCssProperty "aBcBd" = "a-bc-bd".
Proof. reflexivity. Qed.

(** A string that begins with a hyphen of its own, a case no cache key
    is in, loses that hyphen as soon as it holds an upper-case letter. *)
Example convert_leading_hyphen :
  convertToCssProperty "-aB" = "a-b" /\ kebab_case "-aB" = "-a-b"
  /\ convertToCssProperty "-ab" = "-ab".
Proof. repeat split; reflexivity. Qed.

(** * Further properties of the code *)

(** ** More on [convertToCssProperty] *)

Section ConversionMore.

Lemma strip_hyphen_cons (a : ascii) (s : string) :
  strip_hyphen (String a s) = if Ascii.eqb a "-" then s else String a s.
Proof. destruct a as [[] [] [] [] [] [] [] []]; reflexivity. Qed.

Lemma upperChars_hyphenate (s : string) : upperChars (hyphenate s) = [].
Proof.
  induction s as [|a s IH]; [reflexivity |].
  simpl. destruct (is_upper a) eqn:Ha; simpl.
  - now rewrite is_upper_toLowerCase.
  - now rewrite Ha.
Qed.

Lemma upperChars_strip_hyphen (s : string) :
  upperChars s = [] -> upperChars (strip_hyphen s) = [].
Proof.
  destruct s as [|a s]; [auto |].
  rewrite strip_hyphen_cons. intros H.
  destruct (Ascii.eqb a "-"); [| assumption].
  now apply upperChars_cons_nil in H.
Qed.

Lemma upperChars_convert (s : string) : upperChars (convertToCssProperty s) = [].
Proof.
  rewrite convertToCssProperty_closed.
  destruct (upperChars s) eqn:H; [assumption |].
  apply upperChars_strip_hyphen, upperChars_hyphenate.
Qed.

End ConversionMore.

(** X1: although each turn of the loop replaces only the first occurrence
    of its letter, the loop as a whole replaces every upper-case letter of
    the string, repeated ones included, by a hyphen and the lower-case
    letter; one leading hyphen of the result is then dropped.  A string
    without upper-case letters is returned as it is. *)
Theorem convert_every_letter (s : string) :
  convertToCssProperty s =
    match upperChars s with
    | [] => s
    | _ :: _ => strip_hyphen (hyphenate s)
    end.
Proof. apply convertToCssProperty_closed. Qed.

(** X2: the result of [convertToCssProperty] holds no upper-case letter,
    so that converting a second time changes nothing. *)
Theorem convert_lower_case (s : string) :
  upperChars (convertToCssProperty s) = []
  /\ convertToCssProperty (convertToCssProperty s) = convertToCssProperty s.
Proof.
  split.
  - apply upperChars_convert.
  - apply convertToCssProperty_lower, upperChars_convert.
Qed.

(** X3: a string that begins with a hyphen keeps it when it holds no
    upper-case letter, and loses it when it holds one: the hyphen that is
    dropped at the end need not be one the conversion put there. *)
Theorem convert_own_hyphen (s : string) :
  convertToCssProperty (String "-" s) =
    match upperChars s with
    | [] => String "-" s
    | _ :: _ => hyphenate s
    end.
Proof.
  rewrite convertToCssProperty_closed.
  change (upperChars (String "-" s)) with (upperChars s).
  destruct (upperChars s); reflexivity.
Qed.

(** ** The transition declaration and the validator *)

Section Declaration.

Lemma append_not_empty (a : string) (x : ascii) (r : string) :
  a +:+ String x r <> "".
Proof. destruct a; discriminate. Qed.

Lemma transition_token_not_empty (c : Component) (k : StyleKey) (z : string) :
  transition_token c k +:+ z <> "".
Proof.
  unfold transition_token.
  rewrite !append_assoc. apply append_not_empty.
Qed.

End Declaration.

(** X4: the transition declaration is the empty string exactly when
    nothing is cached, so that [setTransition] installs a transition as
    soon as one property is cached and removes the inline transition
    otherwise. *)
Theorem transition_empty (c : Component) :
  String.eqb (transition c) "" = negb (populated (cachedStyles c)).
Proof.
  unfold transition, keys.
  destruct (cachedStyles c) as [|[k v] l]; [reflexivity |].
  cbn [map fst populated negb].
  apply String.eqb_neq.
  cbn [String.concat]. destruct (map _ (map fst l)).
  - intros H. apply (transition_token_not_empty c k "").
    now rewrite H.
  - apply transition_token_not_empty.
Qed.

(** X5: the validator of [dimension] accepts exactly the values for which
    a measurement yields something: for the values it rejects,
    [detectRelevantDimensions] returns the empty mapping, and for the ones
    it accepts, three properties. *)
Theorem validator_measures (w : World) :
  validator (dimension (this w)) = populated (eval detectRelevantDimensions w)
  /\ length (eval detectRelevantDimensions w)
     = if validator (dimension (this w)) then 3%nat else 0%nat.
Proof.
  unfold eval. rewrite detectRelevantDimensions_run. cbn [fst].
  unfold measured, validator. cbn [existsb].
  rewrite (String.eqb_sym "height"), (String.eqb_sym "width").
  destruct (String.eqb (dimension (this w)) "height"); [now split |].
  destruct (String.eqb (dimension (this w)) "width"); now split.
Qed.

(** ** The inline style a phase leaves *)

Section PhaseStyle.





Lemma this_enter (done : Callback) (w : World) :
  this (exec (enter done) w) = this (probed w).
Proof. unfold exec. now rewrite enter_run. Qed.

Lemma this_leave (done : Callback) (w : World) :
  this (exec (leave done) w) = this (probed w).
Proof. unfold exec. now rewrite leave_run. Qed.



End PhaseStyle.



(** ** A whole phase *)

Section WholePhase.














End WholePhase.






(** ** What the probe does not depend on *)

Section ProbeInputs.

Lemma probing_assign (e : HTMLElement) (x y : string) :
  probing (with_style (assign "display" x (assign "visibility" y (style e))) e)
  = probing e.
Proof.
  unfold probing, with_style.
  cbn [node style offsetHeight offsetWidth computedStyle].
  f_equal. apply map_eq. intros p. rewrite !lookup_assign.
  repeat case_decide; congruence.
Qed.

Lemma shown_hidden_run (x y : string) (w : World) :
  exec (style_set "visibility" y ;; style_set "display" x) w
  = effect [StyleWrite "visibility" y; StyleWrite "display" x] (this w) w.
Proof.
  unfold exec. erewrite bind_run by apply style_set_run.
  now rewrite style_set_run, effect_effect.
Qed.

End ProbeInputs.

(** X10: what the probe measures does not depend on the inline visibility
    and display the element has when the probe starts: whether the element
    is shown, hidden or taken out of the layout by an inline [display],
    the same values are cached. *)
Theorem probe_ignores_visibility (w : World) (x y : string)
    (empty : cachedStyles (this w) = []) :
  cachedStyles
    (this (exec detectAndCacheDimensions
             (exec (style_set "visibility" y ;; style_set "display" x) w)))
  = cachedStyles (this (exec detectAndCacheDimensions w)).
Proof.
  rewrite shown_hidden_run. unfold exec. rewrite !detect_run. cbn [snd].
  unfold probed. cbn [this effect]. rewrite empty.
  unfold effect. cbn [this cachedStyles with_cachedStyles el replay fold_left].
  now rewrite probing_assign.
Qed.

Lemma probe_ignores_visibility_witness :
  cachedStyles
    (this (exec detectAndCacheDimensions
             (exec (style_set "visibility" "visible" ;; style_set "display" "block")
                (mount sample_this sample_el))))
  = [(height, "120px"); (paddingTop, "10px"); (paddingBottom, "5px")].
Proof.
  etransitivity.
  - exact (probe_ignores_visibility (mount sample_this sample_el)
             "block" "visible" eq_refl).
  - vm_compute. reflexivity.
Defined.

(** ** Hooks that only notify, and phases on a populated cache *)

Section Relayed.

Lemma emit_only_notifies (event : string) (w : World) :
  only_notifies event w (exec (emit event None) w).
Proof.
  unfold only_notifies, exec. rewrite emit_run. unfold effect.
  cbn [snd this el timers now log replay fold_left timers_of flat_map].
  repeat split.
  - apply with_style_id.
  - apply app_nil_r.
Qed.



Lemma probed_populated (w : World) :
  cachedStyles (this w) <> [] -> probed w = w.
Proof.
  intros H. unfold probed. destruct (cachedStyles (this w)); congruence.
Qed.

End Relayed.

(** X11: the eight hooks other than [enter], [leave], [after-enter] and
    [after-leave], the three cancellation hooks among them, do nothing but
    notify the caller: the cache, the inline style of the element and the
    pending timers are as they were, so that a phase that is cancelled
    keeps its overrides on the element, its cache and its timer. *)
Theorem relayed_hooks_frame :
  Forall (fun event =>
    forall (w : World) (done : Callback),
      only_notifies event w (exec (on event done) w)) relayed.
Proof.
  unfold relayed.
  repeat (apply List.Forall_cons;
          [ intros w done; unfold on;
            match goal with
            | |- context [listener listeners ?e] =>
                let r := eval vm_compute in (listener listeners e) in
                change (listener listeners e) with r
            end;
            cbn [call]; apply emit_only_notifies |]).
  apply List.Forall_nil.
Qed.



(** ** A change of the dimension while a phase is in flight *)

Section InFlight.

Lemma set_dimension_other (d : string) (w : World) :
  d <> dimension (this w) ->
  step w (SetDimension d)
  = effect [] (with_cachedStyles [] (with_dimension d (this w))) w.
Proof.
  intros H. cbn [step]. rewrite set_dimension_run.
  now destruct (String.eqb_spec d (dimension (this w))).
Qed.

(** The settle hook on a world whose cache the watcher has emptied. *)
Lemma settle_after_change (event : string) (d : string) (w1 : World) :
  d <> dimension (this w1) ->
  let w3 := exec (unsetOverflow ;; unsetTransition ;; unsetDimensions ;;
                  clearCachedDimensions ;; emit event None)
              (step w1 (SetDimension d)) in
  log w3 = log w1 ++ [StyleWrite "overflow" ""; StyleWrite "transition" "";
                      Emit event (node (el w1)) None]
  /\ cachedStyles (this w3) = []
  /\ dimension (this w3) = d.
Proof.
  intros Hd w3. subst w3. rewrite set_dimension_other by assumption.
  unfold exec. rewrite settle_run, effect_effect.
  unfold effect, unset. cbn [snd log this el node with_style cachedStyles
                              with_cachedStyles with_dimension dimension
                              keys map writes app].
  repeat split.
Qed.

Lemma node_enter (done : Callback) (w : World) :
  node (el (exec (enter done) w)) = node (el w).
Proof. unfold exec. rewrite enter_run. apply node_probed. Qed.

Lemma node_leave (done : Callback) (w : World) :
  node (el (exec (leave done) w)) = node (el w).
Proof. unfold exec. rewrite leave_run. apply node_probed. Qed.

End InFlight.

(** X13: when the dimension is changed to another value between [enter]
    and [afterEnter] (or between [leave] and [afterLeave]), the watcher
    empties the cache and the settle hook no longer knows which
    properties were set: after the events of the phase it resets overflow
    and transition, emits its notification, and writes to no size or
    padding, so that what the phase assigned to the cached properties is
    never reset. *)
Theorem dimension_change_in_flight (w : World) (done : Callback) (d : string)
    (changed : d <> dimension (this w)) :
  let entered := exec afterEnter (step (exec (enter done) w) (SetDimension d)) in
  let left := exec afterLeave (step (exec (leave done) w) (SetDimension d)) in
  (log entered
   = log (exec (enter done) w)
     ++ [StyleWrite "overflow" ""; StyleWrite "transition" "";
         Emit "after-enter" (node (el w)) None]
   /\ cachedStyles (this entered) = []
   /\ dimension (this entered) = d)
  /\ (log left
      = log (exec (leave done) w)
        ++ [StyleWrite "overflow" ""; StyleWrite "transition" "";
            Emit "after-leave" (node (el w)) None]
      /\ cachedStyles (this left) = []
      /\ dimension (this left) = d).
Proof.
  intros entered left. subst entered left.
  destruct (props_probed w) as (Hd & _).
  assert (He : d <> dimension (this (exec (enter done) w)))
    by (rewrite this_enter; congruence).
  assert (Hl : d <> dimension (this (exec (leave done) w)))
    by (rewrite this_leave; congruence).
  pose proof (settle_after_change "after-enter" d _ He) as H1.
  pose proof (settle_after_change "after-leave" d _ Hl) as H2.
  cbv zeta in H1, H2. rewrite node_enter in H1. rewrite node_leave in H2.
  split; assumption.
Qed.

Lemma dimension_change_in_flight_witness :
  log (exec afterEnter
         (step (exec (enter None) (mount sample_this sample_el))
            (SetDimension "width")))
  = log (exec (enter None) (mount sample_this sample_el))
    ++ [StyleWrite "overflow" ""; StyleWrite "transition" "";
        Emit "after-enter" 7%nat None].
Proof.
  assert (Hd : "width" <> dimension (this (mount sample_this sample_el)))
    by (vm_compute; discriminate).
  exact (proj1 (proj1 (dimension_change_in_flight
                         (mount sample_this sample_el) None "width" Hd))).
Defined.

(** ** What no operation does *)

Section Never.

Lemma timers_effect (evs : list Event) (c : Component) (w : World) :
  timers w `prefix_of` timers (effect evs c w).
Proof. unfold effect. cbn [timers]. now eexists. Qed.

Lemma timers_call (m : Method) (done : Callback) (w : World) :
  timers w `prefix_of` timers (exec (call m done) w).
Proof.
  unfold exec.
  destruct m; cbn [call];
    lazymatch goal with
    | |- context [enter] =>
        rewrite enter_run; cbn [snd];
        rewrite <- (timers_probed w) at 1; apply timers_effect
    | |- context [leave] =>
        rewrite leave_run; cbn [snd];
        rewrite <- (timers_probed w) at 1; apply timers_effect
    | |- context [afterEnter] =>
        unfold afterEnter; rewrite settle_run; apply timers_effect
    | |- context [afterLeave] =>
        unfold afterLeave; rewrite settle_run; apply timers_effect
    | |- context [snd (?f w)] =>
        unfold f; rewrite emit_run; apply timers_effect
    end.
Qed.

Lemma timers_step (w : World) (o : Op) : timers w `prefix_of` timers (step w o).
Proof.
  destruct o as [event e done | d | n | s | s | ms]; cbn [step];
    try reflexivity.
  - change (exec (put_el e ;; on event done) w)
      with (exec (on event done) (on_element e w)).
    unfold on. destruct (listener listeners event).
    + apply (timers_call m done (on_element e w)).
    + reflexivity.
  - rewrite set_dimension_run.
    destruct (String.eqb d (dimension (this w))); [reflexivity |].
    apply timers_effect.
Qed.

(** The cache after a call of a method, when it was populated before. *)
Lemma cache_call (m : Method) (done : Callback) (w : World) :
  cachedStyles (this w) <> [] ->
  cachedStyles (this (exec (call m done) w))
  = match m with
    | m_afterEnter | m_afterLeave => []
    | _ => cachedStyles (this w)
    end.
Proof.
  intros H. unfold exec.
  destruct m; cbn [call];
    lazymatch goal with
    | |- context [enter] =>
        rewrite enter_run; cbn [snd effect this];
        now rewrite probed_populated
    | |- context [leave] =>
        rewrite leave_run; cbn [snd effect this];
        now rewrite probed_populated
    | |- context [afterEnter] =>
        unfold afterEnter; now rewrite settle_run
    | |- context [afterLeave] =>
        unfold afterLeave; now rewrite settle_run
    | |- context [snd (?f w)] =>
        unfold f; now rewrite emit_run
    end.
Qed.

End Never.

(** X14: no operation takes a pending timer away: whatever hooks are
    raised (cancellation and settle hooks included), whatever props are
    changed and however much time passes, the timers that were pending are
    still pending, in the same order, in front of the ones set since. *)
Theorem timers_kept (ops : list Op) (w : World) :
  timers w `prefix_of` timers (run ops w).
Proof.
  revert w. induction ops as [|o ops IH]; intros w; [reflexivity |].
  cbn [run fold_left]. etransitivity; [apply timers_step | apply IH].
Qed.

Section Immutable.

Lemma listener_settle (event : string) (m : Method) :
  listener listeners event = Some m ->
  match m with
  | m_afterEnter => event = "after-enter"
  | m_afterLeave => event = "after-leave"
  | _ => event <> "after-enter" /\ event <> "after-leave"
  end.
Proof.
  unfold listeners. cbn [listener].
  repeat match goal with
         | |- context [String.eqb ?a event] =>
             destruct (String.eqb_spec a event) as [<-|_];
               [intros [= <-]; first [reflexivity | split; discriminate] |]
         end.
  discriminate.
Qed.

Lemma listener_none (event : string) :
  listener listeners event = None ->
  event <> "after-enter" /\ event <> "after-leave".
Proof.
  intros H. split; intros ->; vm_compute in H; discriminate.
Qed.

End Immutable.

(** X15: a populated cache is never measured over: every operation
    leaves it as it is, except the two settle hooks and a change of the
    dimension to another value, which empty it.  The values a phase
    works with are therefore the ones cached when it started. *)
Theorem cache_kept_or_emptied (w : World) (o : Op)
    (full : cachedStyles (this w) <> []) :
  cachedStyles (this (step w o))
  = if clears w o then [] else cachedStyles (this w).
Proof.
  destruct o as [event e done | d | n | s | s | ms]; cbn [step clears];
    try reflexivity.
  - change (exec (put_el e ;; on event done) w)
      with (exec (on event done) (on_element e w)).
    unfold on. destruct (listener listeners event) as [m|] eqn:Hl.
    + rewrite (cache_call m done (on_element e w)) by exact full.
      apply listener_settle in Hl.
      destruct m;
        lazymatch type of Hl with
        | _ = _ => subst event; reflexivity
        | _ => destruct Hl as [He Hv]; apply String.eqb_neq in He, Hv;
               now rewrite He, Hv
        end.
    + apply listener_none in Hl as [He Hv].
      apply String.eqb_neq in He, Hv. now rewrite He, Hv.
  - rewrite set_dimension_run.
    now destruct (String.eqb d (dimension (this w))).
Qed.

Lemma cache_kept_or_emptied_witness :
  cachedStyles
    (this (step (exec (enter None) (mount sample_this sample_el))
             (Hook "enter-cancelled" sample_el None)))
  = cachedStyles (this (exec (enter None) (mount sample_this sample_el))).
Proof.
  apply (cache_kept_or_emptied
           (exec (enter None) (mount sample_this sample_el))
           (Hook "enter-cancelled" sample_el None)).
  vm_compute. discriminate.
Defined.

(** X16: after [enter] or [leave] the cache is populated exactly when it
    was populated before or the dimension is one the validator accepts. *)
Theorem phase_populates (w : World) (done : Callback) :
  populated (cachedStyles (this (exec (enter done) w)))
  = populated (cachedStyles (this w)) || validator (dimension (this w))
  /\ populated (cachedStyles (this (exec (leave done) w)))
     = populated (cachedStyles (this w)) || validator (dimension (this w)).
Proof.
  rewrite this_enter, this_leave. unfold probed.
  destruct (cachedStyles (this w)) eqn:Hc.
  - unfold effect, measured, validator.
    cbn [this cachedStyles with_cachedStyles existsb populated orb].
    rewrite (String.eqb_sym "height"), (String.eqb_sym "width").
    destruct (String.eqb (dimension (this w)) "height"); [now split |].
    destruct (String.eqb (dimension (this w)) "width"); now split.
  - rewrite Hc. now split.
Qed.

(** ** A whole phase on any element *)

Section WholePhaseFrame.


End WholePhaseFrame.

